(** * The citus-manager pod-event reconciliation engine

    A shallow embedding of [src/manager/manager.py]: the [Manager] class with
    its three node sets and its provisioning flag, the readiness gate
    [check_pod_readiness], the per-role ADDED and DELETED handlers and the
    event loop [run].

    The program talks to three collaborators that live outside the file:
    the Kubernetes pod-status API, the [DBHandler] and the [ConfigMonitor].
    - The answers of the pod-status API are an input: the state carries the
      list of answers the API is going to give, in call order; an attempt
      that finds the list empty is still waiting for its answer.
    - Calls to [DBHandler.execute_query] and to the [ConfigMonitor] are
      recorded, in order, in the list of effects a computation emits.  They
      are taken to return normally; [DBHandler.get_host_name] is a parameter.
    - Calls to [log] have no influence on the state and are left out. *)

From stdpp Require Import gmap strings list.
From Stdlib Require Import ZArith Lia.

(** ** Exceptions, answers of the platform, recorded effects *)

(** The exception classes the program distinguishes.  [ApiException] is
    [kubernetes.client.rest.ApiException] (the API answered with an error
    status, e.g. 404 for a pod that does not exist); [AssertionError] comes
    from [assert all(readiness)]; [TypeError] from iterating a missing
    [container_statuses]; [TransportError] stands for every other exception
    the HTTP client can raise (connection refused, time-out, ...). *)
Inductive exn : Type :=
  | ApiException
  | AssertionError
  | TypeError
  | TransportError
  | ReadinessError.

Definition is_ApiException (x : exn) : bool :=
  match x with ApiException => true | _ => false end.

(** One answer of [api.read_namespaced_pod_status]: a pod status whose
    [container_statuses] is [None] or the list of the containers' [ready]
    bits, or an exception. *)
Inductive response : Type :=
  | PodStatus (container_statuses : option (list bool))
  | ApiRaises (e : exn).

Inductive effect : Type :=
  | ReadPodStatus (pod_name namespace : string)
  | Sleep (ms : Z)
  | ExecuteQuery (pod service query host : string) (port : Z)
  | ProvisionMaster (pod : string)
  | ProvisionCoordinator (pod : string)
  | ProvisionWorker (pod : string)
  | ProvisionAllNodes.

Definition is_provision (e : effect) : bool :=
  match e with
  | ProvisionMaster _ | ProvisionCoordinator _ | ProvisionWorker _
  | ProvisionAllNodes => true
  | _ => false
  end.

Definition is_query (e : effect) : bool :=
  match e with ExecuteQuery _ _ _ _ _ => true | _ => false end.

(** The effects of the readiness gate: polls and sleeps. *)
Definition is_gate (e : effect) : bool :=
  match e with ReadPodStatus _ _ | Sleep _ => true | _ => false end.

(** ** Configuration and state *)

Record EnvConf : Type := {
  namespace : string;
  master_label : string;
  coordinator_label : string;
  worker_label : string;
  master_service : string;
  coordinator_service : string;
  worker_service : string;
  minimum_workers : Z;
  pg_port : Z
}.

(** The mutable fields of [Manager]. *)
Record Manager : Type := {
  init_provision : bool;
  citus_master_nodes : gset string;
  citus_worker_nodes : gset string;
  citus_coordinator_nodes : gset string
}.

(** [Manager.__init__]. *)
Definition init : Manager :=
  {| init_provision := false;
     citus_master_nodes := ∅;
     citus_worker_nodes := ∅;
     citus_coordinator_nodes := ∅ |}.

Record World : Type := {
  self : Manager;
  api : list response
}.

Definition boot (answers : list response) : World :=
  {| self := init; api := answers |}.

(** ** The monad of the event-processing path

    A computation reads and writes the world, emits effects, and ends by
    returning, by raising, or by [Waiting]: blocked inside the readiness gate
    on an answer the platform has not given yet. *)

Inductive outcome (A : Type) : Type :=
  | Returned (a : A)
  | Raised (e : exn)
  | Waiting.
Arguments Returned {A} a.
Arguments Raised {A} e.
Arguments Waiting {A}.

Definition M (A : Type) : Type := World → outcome A * World * list effect.

Definition ret {A} (a : A) : M A := λ w, (Returned a, w, []).

Definition bind {A B} (m : M A) (f : A → M B) : M B := λ w,
  match m w with
  | (Returned a, w1, t1) =>
      match f a w1 with (o, w2, t2) => (o, w2, t1 ++ t2) end
  | (Raised e, w1, t1) => (Raised e, w1, t1)
  | (Waiting, w1, t1) => (Waiting, w1, t1)
  end.

Notation "'let!' x := m 'in' k" := (bind m (λ x, k))
  (at level 10, x name, m at level 100, k at level 200).
Notation "m ;;; k" := (bind m (λ _, k))
  (at level 100, k at level 200, right associativity).

Definition raise {A} (e : exn) : M A := λ w, (Raised e, w, []).
Definition emit (e : effect) : M unit := λ w, (Returned tt, w, [e]).
Definition get_self : M Manager := λ w, (Returned (self w), w, []).
Definition update (f : Manager → Manager) : M unit := λ w,
  (Returned tt, {| self := f (self w); api := api w |}, []).

(** [try: m except cls: h], for the exceptions [x] with [is_cls x]. *)
Definition try_except {A} (m : M A) (is_cls : exn → bool) (h : exn → M A)
  : M A := λ w,
  match m w with
  | (Raised e, w1, t1) =>
      if is_cls e
      then match h e w1 with (o, w2, t2) => (o, w2, t1 ++ t2) end
      else (Raised e, w1, t1)
  | r => r
  end.

(** [for x in xs: body(x)]. *)
Fixpoint for_each {A} (xs : list A) (body : A → M unit) : M unit :=
  match xs with
  | [] => ret tt
  | x :: xs' => body x ;;; for_each xs' body
  end.

(** ** The [retrying] decorator

    [retrying.retry(wait_fixed=.., retry_on_exception=..)] with no stop
    condition: call the function; when it raises an exception that the
    predicate accepts, sleep for [wait_fixed] milliseconds and call it again;
    an exception the predicate does not accept is re-raised; a normal return
    is returned.  [fuel] bounds the number of attempts of the model. *)
Fixpoint retry (fuel : nat) (wait_fixed : Z) (retry_on_exception : exn → bool)
    (fn : M unit) : M unit :=
  match fuel with
  | O => λ w, (Waiting, w, [])
  | S fuel' =>
      try_except fn retry_on_exception
        (λ _, emit (Sleep wait_fixed) ;;;
              retry fuel' wait_fixed retry_on_exception fn)
  end.

Definition is_ReadinessError (x : exn) : bool :=
  match x with ReadinessError => true | _ => false end.

Definition with_init_provision (b : bool) (m : Manager) : Manager :=
  {| init_provision := b;
     citus_master_nodes := citus_master_nodes m;
     citus_worker_nodes := citus_worker_nodes m;
     citus_coordinator_nodes := citus_coordinator_nodes m |}.

Definition with_master_nodes (s : gset string) (m : Manager) : Manager :=
  {| init_provision := init_provision m;
     citus_master_nodes := s;
     citus_worker_nodes := citus_worker_nodes m;
     citus_coordinator_nodes := citus_coordinator_nodes m |}.

Definition with_worker_nodes (s : gset string) (m : Manager) : Manager :=
  {| init_provision := init_provision m;
     citus_master_nodes := citus_master_nodes m;
     citus_worker_nodes := s;
     citus_coordinator_nodes := citus_coordinator_nodes m |}.

Definition with_coordinator_nodes (s : gset string) (m : Manager) : Manager :=
  {| init_provision := init_provision m;
     citus_master_nodes := citus_master_nodes m;
     citus_worker_nodes := citus_worker_nodes m;
     citus_coordinator_nodes := s |}.

(** The pod objects of the event stream. *)
Record V1Pod : Type := {
  labels : option (gmap string string);
  name : string
}.

Record event : Type := {
  ev_type : string;
  ev_object : V1Pod
}.

(** [Manager.get_citus_type]: [not labels] holds for [None] and for the
    empty dictionary. *)
Definition get_citus_type (pod : V1Pod) : string :=
  match labels pod with
  | None => ""%string
  | Some l =>
      if decide (l = ∅) then ""%string
      else default ""%string (l !! "citusType"%string)
  end.

(** [Manager.parse_event]. *)
Definition parse_event (ev : event) : string * string * string :=
  (get_citus_type (ev_object ev), name (ev_object ev), ev_type ev).

Definition add_node_sql : string :=
  "SELECT master_add_node(%(host)s, %(port)s)".

Definition set_coordinator_sql : string :=
  "SELECT citus_set_coordinator_host(%(host)s)".

Definition delete_placement_sql : string :=
  "DELETE FROM pg_dist_shard_placement WHERE nodename=%(host)s AND nodeport=%(port)s".

Definition remove_node_sql : string :=
  "SELECT master_remove_node(%(host)s, %(port)s)".

(** The literal of [remove_worker], with its line break and indentation. *)
Definition remove_worker_sql : string :=
  "DELETE FROM pg_dist_shard_placement WHERE nodename=%(host)s AND nodeport=%(port)s;
            SELECT master_remove_node(%(host)s, %(port)s)".

(** The bound methods stored in [self.pod_interactions], by name. *)
Inductive handler : Type :=
  | AddMaster | AddCoordinator | AddWorker
  | RemoveMaster | RemoveCoordinator | RemoveWorker.

Section Manager.

Variable conf : EnvConf.
(** [DBHandler.get_host_name pod service]. *)
Variable get_host_name : string → string → string.

(** *** The readiness gate *)

(** The body of the decorated function: one poll of the pod status. *)
Definition request_pod_readiness (pod_name : string) : M unit := λ w,
  match api w with
  | [] => (Waiting, w, [])
  | r :: rest =>
      let w' := {| self := self w; api := rest |} in
      let t := [ReadPodStatus pod_name (namespace conf)] in
      match r with
      | ApiRaises e => (Raised e, w', t)
      | PodStatus None => (Raised TypeError, w', t)
      | PodStatus (Some readiness) =>
          if forallb id readiness
          then (Returned tt, w', t)
          else (Raised AssertionError, w', t)
      end
  end.

(** [Manager.check_pod_readiness].  Every attempt that does not wait uses up
    one answer, so one more attempt than there are answers is enough. *)
Definition check_pod_readiness (pod_name : string) : M unit := λ w,
  try_except
    (retry (S (length (api w))) 5000 (λ x, negb (is_ApiException x))
       (request_pod_readiness pod_name))
    is_ApiException
    (λ _, raise ReadinessError) w.

(** *** The collaborators *)

(** [DBHandler.execute_query pod service query {"host": host, "port": port}]. *)
Definition execute_query (pod service query host : string) (port : Z)
  : M unit :=
  emit (ExecuteQuery pod service query host port).

Definition provision_master (pod : string) : M unit :=
  emit (ProvisionMaster pod).
Definition provision_coordinator (pod : string) : M unit :=
  emit (ProvisionCoordinator pod).
Definition provision_worker (pod : string) : M unit :=
  emit (ProvisionWorker pod).
Definition provision_all_nodes : M unit :=
  emit ProvisionAllNodes.

(** [len(self.citus_worker_nodes) >= self.conf.minimum_workers]. *)
Definition enough_workers (m : Manager) : bool :=
  (minimum_workers conf <=? Z.of_nat (size (citus_worker_nodes m)))%Z.

(** *** The handlers *)

Definition exec_on_masters (query worker_name : string) : M unit :=
  let! m := get_self in
  for_each (elements (citus_master_nodes m)) (λ master,
    let worker_host := get_host_name worker_name (worker_service conf) in
    execute_query master (master_service conf) query worker_host
      (pg_port conf)).

Definition exec_on_coordinators (query worker_name : string) : M unit :=
  let! m := get_self in
  for_each (elements (citus_coordinator_nodes m)) (λ coordinator,
    let worker_host := get_host_name worker_name (worker_service conf) in
    execute_query coordinator (coordinator_service conf) query worker_host
      (pg_port conf)).

Definition set_coordinator_master (pod_name : string) : M unit :=
  let service_name := master_service conf in
  let master_host := get_host_name pod_name (master_service conf) in
  execute_query pod_name service_name set_coordinator_sql master_host
    (pg_port conf).

Definition set_coordinator_coordinator (pod_name : string) : M unit :=
  let service_name := coordinator_service conf in
  let coordinator_host :=
    get_host_name pod_name (coordinator_service conf) in
  execute_query pod_name service_name set_coordinator_sql coordinator_host
    (pg_port conf).

Definition add_worker (pod_name : string) : M unit :=
  check_pod_readiness pod_name ;;;
  update (λ m, with_worker_nodes ({[pod_name]} ∪ citus_worker_nodes m) m) ;;;
  exec_on_masters add_node_sql pod_name ;;;
  exec_on_coordinators add_node_sql pod_name ;;;
  let! m := get_self in
  if enough_workers m then
    if negb (init_provision m) then
      provision_all_nodes ;;;
      update (with_init_provision true)
    else provision_worker pod_name
  else ret tt.

Definition remove_worker (worker_name : string) : M unit :=
  update (λ m, with_worker_nodes (citus_worker_nodes m ∖ {[worker_name]}) m) ;;;
  exec_on_masters remove_worker_sql worker_name.

(** The loop of [add_master] and [add_coordinator] runs over the set that
    [add_worker] writes to; the names it adds are members already, so the
    set keeps its size and the iteration goes through the members as they
    were when the loop started. *)
Definition add_master (pod_name : string) : M unit :=
  check_pod_readiness pod_name ;;;
  update (λ m, with_master_nodes ({[pod_name]} ∪ citus_master_nodes m) m) ;;;
  set_coordinator_master pod_name ;;;
  (let! m := get_self in
   if enough_workers m then provision_master pod_name else ret tt) ;;;
  let! m := get_self in
  for_each (elements (citus_worker_nodes m)) add_worker.

Definition remove_master (pod_name : string) : M unit :=
  update (λ m, with_master_nodes (citus_master_nodes m ∖ {[pod_name]}) m).

Definition add_coordinator (pod_name : string) : M unit :=
  check_pod_readiness pod_name ;;;
  update (λ m,
    with_coordinator_nodes ({[pod_name]} ∪ citus_coordinator_nodes m) m) ;;;
  set_coordinator_coordinator pod_name ;;;
  (let! m := get_self in
   if enough_workers m then provision_coordinator pod_name else ret tt) ;;;
  let! m := get_self in
  for_each (elements (citus_worker_nodes m)) add_worker.

Definition remove_coordinator (pod_name : string) : M unit :=
  update (λ m,
    with_coordinator_nodes (citus_coordinator_nodes m ∖ {[pod_name]}) m).

(** *** The dispatch table and the event loop *)

Definition call (h : handler) : string → M unit :=
  match h with
  | AddMaster => add_master
  | AddCoordinator => add_coordinator
  | AddWorker => add_worker
  | RemoveMaster => remove_master
  | RemoveCoordinator => remove_coordinator
  | RemoveWorker => remove_worker
  end.

(** A dictionary display keeps, for a key written twice, the last value. *)
Definition pod_interactions : gmap string (gmap string handler) :=
  <["DELETED"%string :=
      <[worker_label conf := RemoveWorker]>
        (<[coordinator_label conf := RemoveCoordinator]>
           (<[master_label conf := RemoveMaster]> ∅))]>
    (<["ADDED"%string :=
        <[worker_label conf := AddWorker]>
          (<[coordinator_label conf := AddCoordinator]>
             (<[master_label conf := AddMaster]> ∅))]> ∅).

(** The handler the loop of [run] finds for an event, if any. *)
Definition handler_of (ev : event) : option handler :=
  let '(citus_type, pod_name, event_type) := parse_event ev in
  if decide (citus_type = ""%string) then None
  else
    match pod_interactions !! event_type with
    | None => None
    | Some handler => handler !! citus_type
    end.

(** The body of the loop of [run], for one event of the stream. *)
Definition handle (ev : event) : M unit :=
  let '(citus_type, pod_name, event_type) := parse_event ev in
  if decide (citus_type = ""%string) then ret tt
  else
    match pod_interactions !! event_type with
    | None => ret tt
    | Some handler =>
        match handler !! citus_type with
        | None => ret tt
        | Some h =>
            try_except (call h pod_name) is_ReadinessError (λ _, ret tt)
        end
    end.

(** [Manager.run] on a finite prefix of the event stream. *)
Definition run (events : list event) : M unit := for_each events handle.

End Manager.

(** ** Vocabulary of the statements *)

(** An answer after which the decorated function is called again: an
    exception that is not an [ApiException], a status without
    [container_statuses], or a status in which some container is not ready. *)
Definition retried (r : response) : bool :=
  match r with
  | ApiRaises e => negb (is_ApiException e)
  | PodStatus None => true
  | PodStatus (Some readiness) => negb (forallb id readiness)
  end.

(** [n] polls of the status of [pod], each followed by the fixed delay. *)
Definition polls (conf : EnvConf) (pod : string) (n : nat) : list effect :=
  concat (replicate n [ReadPodStatus pod (namespace conf); Sleep 5000]).

Section Vocabulary.

Variable conf : EnvConf.
Variable get_host_name : string → string → string.

(** The queries of [exec_on_masters] and of [exec_on_coordinators]. *)
Definition on_masters (query worker : string) (m : Manager) : list effect :=
  map (λ master,
         ExecuteQuery master (master_service conf) query
           (get_host_name worker (worker_service conf)) (pg_port conf))
      (elements (citus_master_nodes m)).

Definition on_coordinators (query worker : string) (m : Manager)
  : list effect :=
  map (λ coordinator,
         ExecuteQuery coordinator (coordinator_service conf) query
           (get_host_name worker (worker_service conf)) (pg_port conf))
      (elements (citus_coordinator_nodes m)).

(** What [add_worker] does once the gate has let the pod through: the
    manager it leaves and the calls it makes. *)
Definition worker_joined (pod : string) (m : Manager) : Manager :=
  with_worker_nodes ({[pod]} ∪ citus_worker_nodes m) m.

Definition registered_worker (pod : string) (m : Manager) : Manager :=
  let m1 := worker_joined pod m in
  if enough_workers conf m1 && negb (init_provision m1)
  then with_init_provision true m1 else m1.

Definition provisioning_of_worker (pod : string) (m : Manager)
  : list effect :=
  if enough_workers conf m then
    if negb (init_provision m) then [ProvisionAllNodes]
    else [ProvisionWorker pod]
  else [].

Definition registration_effects (pod : string) (m : Manager)
  : list effect :=
  let m1 := worker_joined pod m in
  on_masters add_node_sql pod m1 ++ on_coordinators add_node_sql pod m1
  ++ provisioning_of_worker pod m1.

(** What [add_master] and [add_coordinator] do between the gate and the
    loop over the workers. *)
Definition master_joined (pod : string) (m : Manager) : Manager :=
  with_master_nodes ({[pod]} ∪ citus_master_nodes m) m.

Definition master_effects (pod : string) (m : Manager) : list effect :=
  ExecuteQuery pod (master_service conf) set_coordinator_sql
    (get_host_name pod (master_service conf)) (pg_port conf)
  :: (if enough_workers conf m then [ProvisionMaster pod] else []).

Definition coordinator_joined (pod : string) (m : Manager) : Manager :=
  with_coordinator_nodes ({[pod]} ∪ citus_coordinator_nodes m) m.

Definition coordinator_effects (pod : string) (m : Manager) : list effect :=
  ExecuteQuery pod (coordinator_service conf) set_coordinator_sql
    (get_host_name pod (coordinator_service conf)) (pg_port conf)
  :: (if enough_workers conf m then [ProvisionCoordinator pod] else []).

(** The ways a call of a handler can change the manager.  An ADDED
    handler leaves it as it was when its own gate does not let the pod
    through.  The loop of [add_master] and [add_coordinator] calls
    [add_worker] on members of the worker set: the sets stay, and the flag
    is set if it was unset with enough workers. *)
Inductive moves : handler → string → Manager → Manager → Prop :=
  | mv_gate_master pod m : moves AddMaster pod m m
  | mv_gate_coordinator pod m : moves AddCoordinator pod m m
  | mv_gate_worker pod m : moves AddWorker pod m m
  | mv_add_worker pod m : moves AddWorker pod m (registered_worker pod m)
  | mv_add_master pod m : moves AddMaster pod m (master_joined pod m)
  | mv_add_master_flag pod m :
      init_provision m = false → enough_workers conf m = true →
      citus_worker_nodes m ≠ ∅ →
      moves AddMaster pod m (with_init_provision true (master_joined pod m))
  | mv_add_coordinator pod m :
      moves AddCoordinator pod m (coordinator_joined pod m)
  | mv_add_coordinator_flag pod m :
      init_provision m = false → enough_workers conf m = true →
      citus_worker_nodes m ≠ ∅ →
      moves AddCoordinator pod m
        (with_init_provision true (coordinator_joined pod m))
  | mv_remove_master pod m :
      moves RemoveMaster pod m
        (with_master_nodes (citus_master_nodes m ∖ {[pod]}) m)
  | mv_remove_coordinator pod m :
      moves RemoveCoordinator pod m
        (with_coordinator_nodes (citus_coordinator_nodes m ∖ {[pod]}) m)
  | mv_remove_worker pod m :
      moves RemoveWorker pod m
        (with_worker_nodes (citus_worker_nodes m ∖ {[pod]}) m).

End Vocabulary.

Definition world_of {A} (r : outcome A * World * list effect) : World := r.1.2.
Definition outcome_of {A} (r : outcome A * World * list effect) : outcome A :=
  r.1.1.
Definition effects_of {A} (r : outcome A * World * list effect)
  : list effect := r.2.

Section Runs.

Variable conf : EnvConf.
Variable get_host_name : string → string → string.

(** The world after the first [i] events of the stream [evs], when the
    process starts with the platform answering [answers]. *)
Definition after (evs : list event) (answers : list response) (i : nat)
  : World :=
  world_of (run conf get_host_name (take i evs) (boot answers)).

Definition flag (w : World) : bool := init_provision (self w).

Definition workers_size (w : World) : Z :=
  Z.of_nat (size (citus_worker_nodes (self w))).

(** The flag changes from unset to set while event number [i] is
    processed. *)
Definition flag_turns_on (evs : list event) (answers : list response)
    (i : nat) : Prop :=
  flag (after evs answers i) = false
  ∧ flag (after evs answers (S i)) = true.

(** Processing event number [i] makes the size of the worker set reach
    [bound] for the first time. *)
Definition first_reach (bound : Z) (evs : list event)
    (answers : list response) (i : nat) : Prop :=
  (∀ j, j ≤ i → (workers_size (after evs answers j) < bound)%Z)
  ∧ (bound ≤ workers_size (after evs answers (S i)))%Z.

(** Some event of [evs] for the pod [pod] is dispatched to [h]. *)
Definition dispatched (evs : list event) (h : handler) (pod : string)
  : Prop :=
  ∃ ev, ev ∈ evs ∧ handler_of conf ev = Some h ∧ name (ev_object ev) = pod.

(** Every member of a set was put there by an ADDED event of [evs] for its
    role. *)
Definition provenance (evs : list event) (m : Manager) : Prop :=
  (∀ n, n ∈ citus_master_nodes m → dispatched evs AddMaster n)
  ∧ (∀ n, n ∈ citus_coordinator_nodes m →
       dispatched evs AddCoordinator n)
  ∧ (∀ n, n ∈ citus_worker_nodes m → dispatched evs AddWorker n).

End Runs.

(** While the flag is unset the worker set is smaller than the threshold,
    and smaller than 1 when the threshold is less. *)
Definition prov_inv (conf : EnvConf) (m : Manager) : Prop :=
  init_provision m = false →
  (Z.of_nat (size (citus_worker_nodes m)) < Z.max 1 (minimum_workers conf))%Z.


(** Every pod carries one role label in all its events. *)
Definition fixed_roles (evs : list event) : Prop :=
  ∀ ev1 ev2, ev1 ∈ evs → ev2 ∈ evs →
    name (ev_object ev1) = name (ev_object ev2) →
    get_citus_type (ev_object ev1) = get_citus_type (ev_object ev2).

Definition disjoint_roles (m : Manager) : Prop :=
  citus_master_nodes m ## citus_coordinator_nodes m
  ∧ citus_master_nodes m ## citus_worker_nodes m
  ∧ citus_coordinator_nodes m ## citus_worker_nodes m.

(** The add-node queries among the effects. *)
Definition is_add_node (e : effect) : bool :=
  match e with
  | ExecuteQuery _ _ query _ _ => bool_decide (query = add_node_sql)
  | _ => false
  end.

(** The calls to the collaborators among the effects: everything that is
    not a poll or a sleep of the gate. *)
Definition is_call (e : effect) : bool := negb (is_gate e).

Section Replay.

Variable conf : EnvConf.
Variable get_host_name : string → string → string.

(** The add-node queries of one call of [add_worker]. *)
Definition add_node_queries (worker : string) (m : Manager) : list effect :=
  on_masters conf get_host_name add_node_sql worker m
  ++ on_coordinators conf get_host_name add_node_sql worker m.


(** [add_master] and [add_coordinator], as one: the manager after the pod
    has joined its set, and the calls made before the loop. *)
Definition joined (h : handler) (pod : string) (m : Manager) : Manager :=
  match h with
  | AddMaster => master_joined pod m
  | AddCoordinator => coordinator_joined pod m
  | _ => m
  end.

Definition own_effects (h : handler) (pod : string) (m : Manager)
  : list effect :=
  match h with
  | AddMaster => master_effects conf get_host_name pod m
  | AddCoordinator => coordinator_effects conf get_host_name pod m
  | _ => []
  end.

End Replay.

(** ** Data for the examples *)

Definition demo_conf (threshold : Z) : EnvConf :=
  {| namespace := "default";
     master_label := "master";
     coordinator_label := "coordinator";
     worker_label := "worker";
     master_service := "pg-citus-master";
     coordinator_service := "pg-citus-coordinator";
     worker_service := "pg-citus-worker";
     minimum_workers := threshold;
     pg_port := 5432 |}.

Definition demo_host (pod service : string) : string :=
  (pod ++ "." ++ service)%string.

(** An event of the given type for a pod labelled [citusType: role]. *)
Definition pod_event (type role pod : string) : event :=
  {| ev_type := type;
     ev_object := {| labels := Some {[ "citusType"%string := role ]};
                     name := pod |} |}.

Definition ready : response := PodStatus (Some [true]).
Definition not_ready : response := PodStatus (Some [true; false]).

(** Two workers have joined, the threshold is 2, the platform is going to
    answer [answers]. *)
Definition demo_two_workers (answers : list response) : World :=
  after (demo_conf 2) demo_host
    [pod_event "ADDED" "worker" "w1"; pod_event "ADDED" "worker" "w2"]
    (ready :: ready :: answers) 2.

(** Three workers have joined, the threshold is 2. *)
Definition demo_three_workers (answers : list response) : World :=
  after (demo_conf 2) demo_host
    [pod_event "ADDED" "worker" "w1"; pod_event "ADDED" "worker" "w2";
     pod_event "ADDED" "worker" "w3"]
    (ready :: ready :: ready :: answers) 3.

(** ** Vocabulary of the further properties *)

Definition is_add (h : handler) : bool :=
  match h with
  | AddMaster | AddCoordinator | AddWorker => true
  | _ => false
  end.

(** The set a handler adds to or removes from. *)
Definition nodes_of (h : handler) (m : Manager) : gset string :=
  match h with
  | AddMaster | RemoveMaster => citus_master_nodes m
  | AddCoordinator | RemoveCoordinator => citus_coordinator_nodes m
  | AddWorker | RemoveWorker => citus_worker_nodes m
  end.

(** The names in one of the three sets. *)
Definition members (m : Manager) : gset string :=
  citus_master_nodes m ∪ citus_coordinator_nodes m ∪ citus_worker_nodes m.

Definition is_provision_all (e : effect) : bool :=
  match e with ProvisionAllNodes => true | _ => false end.

(** The three statements the manager sends. *)
Definition statements : list string :=
  [add_node_sql; set_coordinator_sql; remove_worker_sql].

(** What every effect of a handler satisfies, with respect to the manager
    the handler leaves: a poll asks about the configured namespace, a sleep
    lasts 5000 ms, a query is one of the three statements, carries the
    configured port and is addressed to a member of the master set in the
    master service or to a member of the coordinator set in the coordinator
    service, and a provisioning call is made with enough workers, for a
    member of the set of its role. *)
Definition effect_ok (conf : EnvConf) (m : Manager) (e : effect) : Prop :=
  match e with
  | ReadPodStatus _ ns => ns = namespace conf
  | Sleep ms => ms = 5000%Z
  | ExecuteQuery pod service query _ port =>
      port = pg_port conf
      ∧ query ∈ statements
      ∧ ((pod ∈ citus_master_nodes m ∧ service = master_service conf)
         ∨ (pod ∈ citus_coordinator_nodes m
            ∧ service = coordinator_service conf))
  | ProvisionMaster pod =>
      enough_workers conf m = true ∧ pod ∈ citus_master_nodes m
  | ProvisionCoordinator pod =>
      enough_workers conf m = true ∧ pod ∈ citus_coordinator_nodes m
  | ProvisionWorker pod =>
      enough_workers conf m = true ∧ pod ∈ citus_worker_nodes m
  | ProvisionAllNodes => enough_workers conf m = true
  end.

(** A run of answers that lets one pod through the gate: answers that are
    retried, then a status with every container ready. *)
Definition lets_through (chunk : list response) : Prop :=
  ∃ pre readiness,
    chunk = pre ++ [PodStatus (Some readiness)]
    ∧ forallb retried pre = true
    ∧ forallb id readiness = true.

(** ** The readiness gate *)

(** An answer is retried, or it is a status with every container ready, or
    it is an [ApiException]. *)
Lemma response_cases r :
  retried r = true
  ∨ (∃ readiness, r = PodStatus (Some readiness)
                  ∧ forallb id readiness = true)
  ∨ r = ApiRaises ApiException.
Proof.
  destruct r as [[readiness|]|e]; cbn.
  - destruct (forallb id readiness) eqn:E; [right; left; eauto | by left].
  - by left.
  - destruct e; cbn; auto.
Qed.

Section Gate.

Variable conf : EnvConf.

Lemma check_nil pod m :
  check_pod_readiness conf pod {| self := m; api := [] |}
  = (Waiting, {| self := m; api := [] |}, []).
Proof. reflexivity. Qed.

Local Abbreviation retry_gate n pod :=
  (retry n 5000 (λ x, negb (is_ApiException x))
     (request_pod_readiness conf pod)).

Lemma retry_cons_retried n pod m r rest :
  retried r = true →
  retry_gate (S n) pod {| self := m; api := r :: rest |}
  = match retry_gate n pod {| self := m; api := rest |} with
    | (o, w, t) =>
        (o, w, ReadPodStatus pod (namespace conf) :: Sleep 5000 :: t)
    end.
Proof.
  intros Hr. cbn [retry]. unfold try_except at 1.
  unfold request_pod_readiness at 1. cbn [api self].
  destruct r as [[readiness|]|e]; cbn in Hr.
  - destruct (forallb id readiness); [discriminate|]. cbn [is_ApiException negb].
    unfold bind, emit. destruct (retry_gate n pod _) as [[o w] t].
    reflexivity.
  - cbn [is_ApiException negb].
    unfold bind, emit. destruct (retry_gate n pod _) as [[o w] t].
    reflexivity.
  - rewrite Hr.
    unfold bind, emit. destruct (retry_gate n pod _) as [[o w] t].
    reflexivity.
Qed.

(** The bound on the attempts is never what stops the gate: any larger
    bound gives the same result. *)
Lemma retry_fuel pod m answers : ∀ n,
  length answers < n →
  retry_gate n pod {| self := m; api := answers |}
  = retry_gate (S (length answers)) pod {| self := m; api := answers |}.
Proof.
  induction answers as [|r rest IH]; intros n Hn;
    (destruct n as [|n]; [lia|]).
  - reflexivity.
  - cbn [length] in *. destruct (response_cases r) as [Hr|[(l & -> & Hl)| ->]].
    + rewrite !(retry_cons_retried _ _ _ _ _ Hr), (IH n); [done|lia].
    + cbn [retry]. unfold try_except, request_pod_readiness. cbn [api self].
      by rewrite Hl.
    + reflexivity.
Qed.

Lemma check_cons_retried pod m r rest :
  retried r = true →
  check_pod_readiness conf pod {| self := m; api := r :: rest |}
  = match check_pod_readiness conf pod {| self := m; api := rest |} with
    | (o, w, t) =>
        (o, w, ReadPodStatus pod (namespace conf) :: Sleep 5000 :: t)
    end.
Proof.
  intros Hr. unfold check_pod_readiness, try_except. cbn [api length].
  rewrite (retry_cons_retried _ _ _ _ _ Hr).
  destruct (retry_gate (S (length rest)) pod _) as [[[[]|e|] w] t];
    try reflexivity.
  destruct (is_ApiException e); reflexivity.
Qed.

Lemma check_cons_ready pod m readiness rest :
  forallb id readiness = true →
  check_pod_readiness conf pod
    {| self := m; api := PodStatus (Some readiness) :: rest |}
  = (Returned tt, {| self := m; api := rest |},
     [ReadPodStatus pod (namespace conf)]).
Proof.
  intros Hr. unfold check_pod_readiness, try_except. cbn [api length retry].
  unfold try_except, request_pod_readiness. cbn [api self].
  rewrite Hr. reflexivity.
Qed.

Lemma check_cons_api pod m rest :
  check_pod_readiness conf pod
    {| self := m; api := ApiRaises ApiException :: rest |}
  = (Raised ReadinessError, {| self := m; api := rest |},
     [ReadPodStatus pod (namespace conf)]).
Proof. reflexivity. Qed.

Lemma check_retried_prefix pod m pre rest :
  forallb retried pre = true →
  check_pod_readiness conf pod {| self := m; api := pre ++ rest |}
  = match check_pod_readiness conf pod {| self := m; api := rest |} with
    | (o, w, t) => (o, w, polls conf pod (length pre) ++ t)
    end.
Proof.
  induction pre as [|r pre IH]; intros Hpre.
  - cbn. destruct (check_pod_readiness _ _ _) as [[o w] t]. reflexivity.
  - cbn in Hpre. apply andb_true_iff in Hpre as [Hr Hpre].
    cbn [app]. rewrite (check_cons_retried _ _ _ _ Hr), (IH Hpre).
    destruct (check_pod_readiness conf pod {| self := m; api := rest |})
      as [[o w] t].
    reflexivity.
Qed.


(** The gate never writes to the manager, emits polls and sleeps only, uses
    up a prefix of the answers, and ends in one of three ways. *)
Lemma check_frame pod w o w' t :
  check_pod_readiness conf pod w = (o, w', t) →
  self w' = self w
  ∧ forallb is_gate t = true
  ∧ (∃ used, api w = used ++ api w')
  ∧ (o = Returned tt ∨ o = Raised ReadinessError ∨ o = Waiting).
Proof.
  destruct w as [m answers]. revert o w' t.
  induction answers as [|r rest IH]; intros o w' t H.
  - rewrite check_nil in H. inversion H; subst. cbn.
    repeat split; auto. by exists [].
  - destruct (response_cases r) as [Hr|[(l & -> & Hl)| ->]].
    + rewrite (check_cons_retried _ _ _ _ Hr) in H.
      destruct (check_pod_readiness _ _ _) as [[o1 w1] t1] eqn:E.
      inversion H; subst. destruct (IH _ _ _ eq_refl) as (? & ? & [u Hu] & ?).
      cbn in *. repeat split; auto. exists (r :: u). by rewrite Hu.
    + rewrite (check_cons_ready _ _ _ _ Hl) in H. inversion H; subst. cbn.
      repeat split; auto. by eexists [_].
    + rewrite check_cons_api in H. inversion H; subst. cbn.
      repeat split; auto. by eexists [_].
Qed.

End Gate.

(** ** Loops *)

Lemma for_each_cons {A} (x : A) xs body w :
  for_each (x :: xs) body w
  = match body x w with
    | (Returned _, w1, t1) =>
        match for_each xs body w1 with (o, w2, t2) => (o, w2, t1 ++ t2) end
    | r => r
    end.
Proof.
  cbn [for_each]. unfold bind.
  destruct (body x w) as [[[[]|e|] w1] t1]; reflexivity.
Qed.

Lemma for_each_snoc {A} (x : A) xs body : ∀ w,
  for_each (xs ++ [x]) body w
  = match for_each xs body w with
    | (Returned _, w1, t1) =>
        match body x w1 with (o, w2, t2) => (o, w2, t1 ++ t2) end
    | r => r
    end.
Proof.
  induction xs as [|y xs IH]; intros w.
  - cbn [app]. rewrite for_each_cons. cbn.
    destruct (body x w) as [[[[]|e|] w1] t1]; by rewrite ?app_nil_r.
  - cbn [app]. rewrite !for_each_cons.
    destruct (body y w) as [[[[]|e|] w1] t1]; try reflexivity.
    rewrite IH.
    destruct (for_each xs body w1) as [[[[]|e|] w2] t2]; try reflexivity.
    destruct (body x w2) as [[o3 w3] t3]. by rewrite app_assoc.
Qed.

Lemma with_worker_nodes_id m s :
  s = citus_worker_nodes m → with_worker_nodes s m = m.
Proof. intros ->. by destruct m. Qed.

(** Registering a worker that is a member already can only set the flag. *)
Lemma registered_worker_member conf pod m :
  pod ∈ citus_worker_nodes m →
  registered_worker conf pod m
  = if enough_workers conf m && negb (init_provision m)
    then with_init_provision true m else m.
Proof.
  intros Hin. unfold registered_worker, worker_joined.
  rewrite with_worker_nodes_id; [reflexivity|].
  by apply subseteq_union_1_L, singleton_subseteq_l.
Qed.

(** ** The handlers, step by step *)

Section Handlers.

Variable conf : EnvConf.
Variable get_host_name : string → string → string.

Lemma for_each_emit {A} (f : A → effect) xs w :
  for_each xs (λ x, emit (f x)) w = (Returned tt, w, map f xs).
Proof.
  revert w. induction xs as [|x xs IH]; intros w; [reflexivity|].
  cbn [for_each]. unfold bind. cbn. by rewrite IH.
Qed.

Lemma exec_on_masters_eq query worker w :
  exec_on_masters conf get_host_name query worker w
  = (Returned tt, w, on_masters conf get_host_name query worker (self w)).
Proof.
  unfold exec_on_masters, bind, get_self, execute_query.
  by rewrite for_each_emit.
Qed.

Lemma exec_on_coordinators_eq query worker w :
  exec_on_coordinators conf get_host_name query worker w
  = (Returned tt, w,
     on_coordinators conf get_host_name query worker (self w)).
Proof.
  unfold exec_on_coordinators, bind, get_self, execute_query.
  by rewrite for_each_emit.
Qed.

Lemma add_worker_eq pod w :
  add_worker conf get_host_name pod w
  = match check_pod_readiness conf pod w with
    | (Returned _, w1, t1) =>
        (Returned tt,
         {| self := registered_worker conf pod (self w1); api := api w1 |},
         t1 ++ registration_effects conf get_host_name pod (self w1))
    | r => r
    end.
Proof.
  unfold add_worker. unfold bind at 1.
  destruct (check_pod_readiness conf pod w) as [[[[]|e|] w1] t1];
    try reflexivity.
  unfold bind at 1. unfold update at 1.
  unfold bind at 1. rewrite exec_on_masters_eq.
  unfold bind at 1. rewrite exec_on_coordinators_eq.
  unfold bind at 1. unfold get_self at 1. cbn [self api].
  unfold registered_worker, registration_effects, provisioning_of_worker.
  fold (worker_joined pod (self w1)).
  destruct (enough_workers conf (worker_joined pod (self w1))); cbn;
    [destruct (init_provision (self w1)); cbn|]; reflexivity.
Qed.

Lemma remove_worker_eq pod w :
  remove_worker conf get_host_name pod w
  = (Returned tt,
     {| self := with_worker_nodes (citus_worker_nodes (self w) ∖ {[pod]})
                  (self w);
        api := api w |},
     on_masters conf get_host_name remove_worker_sql pod (self w)).
Proof.
  unfold remove_worker, bind, update. rewrite exec_on_masters_eq.
  reflexivity.
Qed.

Lemma add_master_eq pod w :
  add_master conf get_host_name pod w
  = match check_pod_readiness conf pod w with
    | (Returned _, w1, t1) =>
        let m1 := master_joined pod (self w1) in
        match for_each (elements (citus_worker_nodes m1))
                (add_worker conf get_host_name)
                {| self := m1; api := api w1 |}
        with
        | (o, w2, t2) =>
            (o, w2, t1 ++ master_effects conf get_host_name pod m1 ++ t2)
        end
    | r => r
    end.
Proof.
  unfold add_master. unfold bind at 1.
  destruct (check_pod_readiness conf pod w) as [[[[]|e|] w1] t1];
    try reflexivity.
  unfold bind at 1. unfold update at 1.
  unfold bind at 1. unfold set_coordinator_master, execute_query, emit at 1.
  unfold bind at 1. unfold bind at 1. unfold get_self at 1. cbn [self api].
  fold (master_joined pod (self w1)).
  unfold bind at 1. unfold get_self at 1. cbn [self api].
  unfold master_effects.
  destruct (enough_workers conf (master_joined pod (self w1))); cbn.
  all: destruct (for_each _ _ _) as [[o w2] t2]; reflexivity.
Qed.

Lemma add_coordinator_eq pod w :
  add_coordinator conf get_host_name pod w
  = match check_pod_readiness conf pod w with
    | (Returned _, w1, t1) =>
        let m1 := coordinator_joined pod (self w1) in
        match for_each (elements (citus_worker_nodes m1))
                (add_worker conf get_host_name)
                {| self := m1; api := api w1 |}
        with
        | (o, w2, t2) =>
            (o, w2,
             t1 ++ coordinator_effects conf get_host_name pod m1 ++ t2)
        end
    | r => r
    end.
Proof.
  unfold add_coordinator. unfold bind at 1.
  destruct (check_pod_readiness conf pod w) as [[[[]|e|] w1] t1];
    try reflexivity.
  unfold bind at 1. unfold update at 1.
  unfold bind at 1.
  unfold set_coordinator_coordinator, execute_query, emit at 1.
  unfold bind at 1. unfold bind at 1. unfold get_self at 1. cbn [self api].
  fold (coordinator_joined pod (self w1)).
  unfold bind at 1. unfold get_self at 1. cbn [self api].
  unfold coordinator_effects.
  destruct (enough_workers conf (coordinator_joined pod (self w1))); cbn.
  all: destruct (for_each _ _ _) as [[o w2] t2]; reflexivity.
Qed.

Lemma remove_master_eq pod w :
  remove_master pod w
  = (Returned tt,
     {| self := with_master_nodes (citus_master_nodes (self w) ∖ {[pod]})
                  (self w);
        api := api w |}, []).
Proof. reflexivity. Qed.

Lemma remove_coordinator_eq pod w :
  remove_coordinator pod w
  = (Returned tt,
     {| self := with_coordinator_nodes
                  (citus_coordinator_nodes (self w) ∖ {[pod]}) (self w);
        api := api w |}, []).
Proof. reflexivity. Qed.


(** The loop over members of the worker set keeps the sets. *)
Lemma replay_self xs : ∀ w o w' t,
  Forall (λ x, x ∈ citus_worker_nodes (self w)) xs →
  for_each xs (add_worker conf get_host_name) w = (o, w', t) →
  self w' = self w
  ∨ (init_provision (self w) = false ∧ enough_workers conf (self w) = true
     ∧ xs ≠ [] ∧ self w' = with_init_provision true (self w)).
Proof.
  induction xs as [|x xs IH]; intros w o w' t Hxs H.
  - inversion H; subst. by left.
  - inversion Hxs as [|? ? Hx Hxs']; subst.
    rewrite for_each_cons, add_worker_eq in H.
    destruct (check_pod_readiness conf x w) as [[o1 w1] t1] eqn:E.
    destruct (check_frame _ _ _ _ _ _ E) as (Hs & _ & _ & _).
    destruct o1 as [[]| |]; [|inversion H; subst; by left..].
    destruct (for_each xs _ _) as [[o2 w2] t2] eqn:E2.
    inversion H; subst. rewrite Hs in E2.
    rewrite (registered_worker_member _ _ _ Hx) in E2.
    apply IH in E2.
    + cbn [self] in E2.
      destruct (enough_workers conf (self w)) eqn:En;
      destruct (init_provision (self w)) eqn:Ei; cbn in E2.
      * destruct E2 as [->|(? & _)]; [by left|]. congruence.
      * right. repeat split; [done|]. destruct E2 as [->|(? & _)]; [done|]. discriminate.
      * destruct E2 as [->|(? & ? & _)]; [by left|]. congruence.
      * destruct E2 as [->|(? & ? & _)]; [by left|]. congruence.
    + cbn [self]. destruct (_ && _); [|done].
      by destruct (self w).
Qed.

Lemma elements_members (s : gset string) : Forall (λ x, x ∈ s) (elements s).
Proof. apply Forall_forall. intros x. by rewrite elem_of_elements. Qed.

(** Every call of a handler is one of the [moves]. *)
Lemma call_moves h pod w o w' t :
  call conf get_host_name h pod w = (o, w', t) →
  moves conf h pod (self w) (self w').
Proof.
  destruct h; cbn [call]; intros H.
  - rewrite add_master_eq in H.
    destruct (check_pod_readiness conf pod w) as [[o1 w1] t1] eqn:E.
    destruct (check_frame _ _ _ _ _ _ E) as (Hs & _ & _ & _).
    destruct o1 as [[]| |]; [|inversion H; subst; rewrite Hs; constructor..].
    cbn zeta in H.
    destruct (for_each _ _ _) as [[o2 w2] t2] eqn:E2. inversion H; subst.
    apply replay_self in E2; [|apply elements_members].
    cbn [self] in E2. rewrite Hs in E2.
    destruct E2 as [->|(Hi & He & Hne & ->)]; [constructor|].
    apply mv_add_master_flag; [done..|].
    intros Hempty. apply Hne. cbn. by rewrite Hempty, elements_empty.
  - rewrite add_coordinator_eq in H.
    destruct (check_pod_readiness conf pod w) as [[o1 w1] t1] eqn:E.
    destruct (check_frame _ _ _ _ _ _ E) as (Hs & _ & _ & _).
    destruct o1 as [[]| |]; [|inversion H; subst; rewrite Hs; constructor..].
    cbn zeta in H.
    destruct (for_each _ _ _) as [[o2 w2] t2] eqn:E2. inversion H; subst.
    apply replay_self in E2; [|apply elements_members].
    cbn [self] in E2. rewrite Hs in E2.
    destruct E2 as [->|(Hi & He & Hne & ->)]; [constructor|].
    apply mv_add_coordinator_flag; [done..|].
    intros Hempty. apply Hne. cbn. by rewrite Hempty, elements_empty.
  - rewrite add_worker_eq in H.
    destruct (check_pod_readiness conf pod w) as [[o1 w1] t1] eqn:E.
    destruct (check_frame _ _ _ _ _ _ E) as (Hs & _ & _ & _).
    destruct o1 as [[]| |]; inversion H; subst; cbn [self]; rewrite Hs; constructor.
  - rewrite remove_master_eq in H. inversion H; subst. constructor.
  - rewrite remove_coordinator_eq in H. inversion H; subst. constructor.
  - rewrite remove_worker_eq in H. inversion H; subst. constructor.
Qed.

End Handlers.


(** ** The event loop, one event at a time *)

Section Loop.

Variable conf : EnvConf.
Variable get_host_name : string → string → string.

Lemma handle_eq ev w :
  handle conf get_host_name ev w
  = match handler_of conf ev with
    | None => (Returned tt, w, [])
    | Some h =>
        try_except (call conf get_host_name h (name (ev_object ev)))
          is_ReadinessError (λ _, ret tt) w
    end.
Proof.
  unfold handle, handler_of, parse_event.
  destruct (decide _); [reflexivity|].
  destruct (pod_interactions conf !! ev_type ev) as [d|]; [|reflexivity].
  destruct (d !! get_citus_type (ev_object ev)); reflexivity.
Qed.


Lemma handle_moves ev w o w' t :
  handle conf get_host_name ev w = (o, w', t) →
  match handler_of conf ev with
  | None => self w' = self w
  | Some h => moves conf h (name (ev_object ev)) (self w) (self w')
  end.
Proof.
  rewrite handle_eq. destruct (handler_of conf ev) as [h|].
  - unfold try_except.
    destruct (call _ _ _ _ _) as [[o1 w1] t1] eqn:E.
    apply call_moves in E. intros H.
    destruct o1 as [[]|e|]; [inversion H; by subst | | inversion H; by subst].
    destruct (is_ReadinessError e); inversion H; by subst.
  - intros H; inversion H; by subst.
Qed.

Lemma after_S evs answers i :
  after conf get_host_name evs answers (S i) = after conf get_host_name evs answers i
  ∨ ∃ ev o t, evs !! i = Some ev
      ∧ handle conf get_host_name ev (after conf get_host_name evs answers i)
        = (o, after conf get_host_name evs answers (S i), t).
Proof.
  unfold after. destruct (evs !! i) as [ev|] eqn:E.
  - rewrite (take_S_r _ _ _ E). unfold run. rewrite for_each_snoc.
    destruct (for_each (take i evs) _ _) as [[[[]|e|] w1] t1]; [|by left|by left].
    right. cbn [world_of fst snd].
    destruct (handle _ _ _ _) as [[o2 w2] t2] eqn:E2. by exists ev, o2, t2.
  - left. apply lookup_ge_None in E. rewrite !take_ge; [done|lia..].
Qed.

Lemma after_moves evs answers i :
  self (after conf get_host_name evs answers (S i)) = self (after conf get_host_name evs answers i)
  ∨ ∃ ev h, evs !! i = Some ev ∧ handler_of conf ev = Some h
      ∧ moves conf h (name (ev_object ev))
          (self (after conf get_host_name evs answers i))
          (self (after conf get_host_name evs answers (S i))).
Proof.
  destruct (after_S evs answers i) as [->|(ev & o & t & Hev & H)]; [by left|].
  apply handle_moves in H. destruct (handler_of conf ev) as [h|] eqn:Eh; [|by left].
  right. by exists ev, h.
Qed.

End Loop.

(** ** The provisioning flag along a run *)

Lemma size_member (s : gset string) x : x ∈ s → (1 ≤ Z.of_nat (size s))%Z.
Proof.
  intros Hx. assert (size s ≠ 0); [|lia].
  intros H0. apply size_empty_inv in H0. set_solver.
Qed.

Lemma size_nonempty (s : gset string) : s ≠ ∅ → (1 ≤ Z.of_nat (size s))%Z.
Proof.
  intros Hne. assert (size s ≠ 0); [|lia].
  intros H0. apply size_empty_inv in H0. apply Hne. by apply leibniz_equiv.
Qed.

Lemma enough_workers_true conf m :
  enough_workers conf m = true ↔
  (minimum_workers conf ≤ Z.of_nat (size (citus_worker_nodes m)))%Z.
Proof. unfold enough_workers. apply Z.leb_le. Qed.

Lemma enough_workers_false conf m :
  enough_workers conf m = false ↔
  (Z.of_nat (size (citus_worker_nodes m)) < minimum_workers conf)%Z.
Proof. unfold enough_workers. apply Z.leb_gt. Qed.

Lemma moves_prov_inv conf h pod m m' :
  moves conf h pod m m' → prov_inv conf m → prov_inv conf m'.
Proof.
  intros Hm Hinv. inversion Hm; subst; try done.
  - unfold registered_worker.
    destruct (enough_workers conf (worker_joined pod m)) eqn:En;
      destruct (init_provision (worker_joined pod m)) eqn:Ei; cbn [andb negb];
      intros Hf; cbn in *; try congruence.
    apply enough_workers_false in En. cbn in En. lia.
  - intros Hf. cbn in *. specialize (Hinv Hf).
    assert (size (citus_worker_nodes m ∖ {[pod]}) ≤ size (citus_worker_nodes m))
      by (by apply subseteq_size, subseteq_difference_l).
    lia.
Qed.

Lemma moves_flag_mono conf h pod m m' :
  moves conf h pod m m' → init_provision m = true → init_provision m' = true.
Proof.
  intros Hm Hf. inversion Hm; subst; try done.
  unfold registered_worker. by destruct (_ && _).
Qed.

Lemma moves_flag_on conf h pod m m' :
  moves conf h pod m m' → init_provision m = false → init_provision m' = true →
  (Z.max 1 (minimum_workers conf)
   ≤ Z.of_nat (size (citus_worker_nodes m')))%Z.
Proof.
  intros Hm Hf Hf'. inversion Hm; subst; cbn in *; try congruence.
  - unfold registered_worker in *.
    destruct (enough_workers conf (worker_joined pod m)) eqn:En;
      cbn [andb] in *; [|cbn in *; congruence].
    destruct (negb _); cbn in *; [|congruence].
    apply enough_workers_true in En. cbn in En.
    assert (1 ≤ Z.of_nat (size ({[pod]} ∪ citus_worker_nodes m)))%Z
      by (apply (size_member _ pod); set_solver).
    lia.
  - apply enough_workers_true in H0. apply size_nonempty in H1. lia.
  - apply enough_workers_true in H0. apply size_nonempty in H1. lia.
Qed.


Section Runs_facts.
Variable conf : EnvConf.
Variable get_host_name : string → string → string.
Variable evs : list event.
Variable answers : list response.
Local Abbreviation state i := (after conf get_host_name evs answers i).

Lemma after_0 : state 0 = boot answers.
Proof. reflexivity. Qed.

Lemma after_prov_inv i : prov_inv conf (self (state i)).
Proof.
  induction i as [|i IH].
  - rewrite after_0. intros _.
    change (citus_worker_nodes (self (boot answers))) with (∅ : gset string).
    rewrite size_empty. lia.
  - destruct (after_moves conf get_host_name evs answers i)
      as [->|(ev & h & _ & _ & Hm)]; [done|].
    eapply moves_prov_inv; eauto.
Qed.

Lemma after_flag_mono i j :
  i ≤ j → flag (state i) = true → flag (state j) = true.
Proof.
  induction 1 as [|j Hle IH]; [done|]. intros Hi. specialize (IH Hi).
  unfold flag in *.
  destruct (after_moves conf get_host_name evs answers j)
    as [->|(ev & h & _ & _ & Hm)]; [done|].
  eapply moves_flag_mono; eauto.
Qed.

Lemma flag_turns_on_reach i :
  flag_turns_on conf get_host_name evs answers i →
  (Z.max 1 (minimum_workers conf) ≤ workers_size (state (S i)))%Z.
Proof.
  intros [Hf Hf']. unfold flag, workers_size in *.
  destruct (after_moves conf get_host_name evs answers i)
    as [E|(ev & h & _ & _ & Hm)]; [congruence|].
  eapply moves_flag_on; eauto.
Qed.

Lemma flag_set_turned_on i :
  flag (state i) = true →
  ∃ k, k < i ∧ flag_turns_on conf get_host_name evs answers k.
Proof.
  induction i as [|i IH]; [discriminate|]. intros Hf.
  destruct (flag (state i)) eqn:E.
  - destruct (IH eq_refl) as (k & ? & ?). exists k. split; [lia|done].
  - exists i. split; [lia|]. by split.
Qed.

Lemma flag_turns_on_first_reach i :
  flag_turns_on conf get_host_name evs answers i
  ↔ first_reach conf get_host_name (Z.max 1 (minimum_workers conf)) evs answers i.
Proof.
  split.
  - intros Hon. split; [|by apply flag_turns_on_reach].
    intros j Hj. apply after_prov_inv.
    destruct (init_provision (self (state j))) eqn:E; [|done].
    destruct Hon as [Hf _]. rewrite (after_flag_mono j i Hj E) in Hf. done.
  - intros [Hlow Hhigh]. split.
    + destruct (flag (state i)) eqn:E; [|done].
      destruct (flag_set_turned_on i E) as (k & Hk & Hon).
      apply flag_turns_on_reach in Hon. specialize (Hlow (S k) Hk). lia.
    + destruct (flag (state (S i))) eqn:E; [done|].
      pose proof (after_prov_inv (S i) E). unfold workers_size in Hhigh. lia.
Qed.

End Runs_facts.

(** ** The effects of the handlers *)

Lemma filter_keep (f : effect → bool) l :
  forallb f l = true → filter f l = l.
Proof.
  induction l as [|e l IH]; [done|]. cbn [forallb]. intros H.
  apply andb_true_iff in H as [He Hl]. rewrite filter_cons, (IH Hl).
  destruct (decide (f e)) as [|Hn]; [done|]. by rewrite He in Hn.
Qed.

Lemma filter_drop (f : effect → bool) l :
  forallb (λ e, negb (f e)) l = true → filter f l = [].
Proof.
  induction l as [|e l IH]; [done|]. cbn [forallb]. intros H.
  apply andb_true_iff in H as [He Hl]. rewrite filter_cons, (IH Hl).
  destruct (decide (f e)) as [Hy|]; [|done].
  apply negb_true_iff in He. by rewrite He in Hy.
Qed.

Lemma gate_effects_only t :
  forallb is_gate t = true →
  filter is_provision t = [] ∧ filter is_query t = []
  ∧ filter is_add_node t = [] ∧ filter is_call t = [].
Proof.
  intros H. rewrite forallb_forall in H.
  repeat split; apply filter_drop, forallb_forall; intros e He;
    specialize (H e He); by destruct e.
Qed.

Section Effects.

Variable conf : EnvConf.
Variable get_host_name : string → string → string.

Lemma on_masters_calls query x m :
  forallb is_call (on_masters conf get_host_name query x m) = true.
Proof. unfold on_masters. by induction (elements _). Qed.

Lemma on_coordinators_calls query x m :
  forallb is_call (on_coordinators conf get_host_name query x m) = true.
Proof. unfold on_coordinators. by induction (elements _). Qed.

Lemma add_node_queries_add_node x m :
  forallb is_add_node (add_node_queries conf get_host_name x m) = true.
Proof.
  unfold add_node_queries, on_masters, on_coordinators.
  rewrite forallb_app. apply andb_true_iff.
  split; by induction (elements _).
Qed.

Lemma registration_effects_add_node x m :
  filter is_add_node (registration_effects conf get_host_name x m)
  = add_node_queries conf get_host_name x (worker_joined x m).
Proof.
  unfold registration_effects. rewrite app_assoc, filter_app.
  fold (add_node_queries conf get_host_name x (worker_joined x m)).
  rewrite (filter_keep _ _ (add_node_queries_add_node _ _)).
  unfold provisioning_of_worker.
  destruct (enough_workers _ _); [destruct (negb _)|]; by rewrite app_nil_r.
Qed.

Lemma registration_effects_calls x m :
  filter is_call (registration_effects conf get_host_name x m)
  = registration_effects conf get_host_name x m.
Proof.
  apply filter_keep. unfold registration_effects.
  rewrite !forallb_app, on_masters_calls, on_coordinators_calls.
  unfold provisioning_of_worker.
  destruct (enough_workers _ _); [destruct (negb _)|]; done.
Qed.

(** The queries depend on the sets only. *)
Lemma add_node_queries_flag x m :
  add_node_queries conf get_host_name x (with_init_provision true m)
  = add_node_queries conf get_host_name x m.
Proof. reflexivity. Qed.

Lemma worker_joined_member x m :
  x ∈ citus_worker_nodes m → worker_joined x m = m.
Proof.
  intros Hx. unfold worker_joined. apply with_worker_nodes_id.
  by apply subseteq_union_1_L, singleton_subseteq_l.
Qed.

(** The loop over members of the worker set issues the add-node queries of
    the workers it gets through, in order, and of no other; it stops at the
    first worker whose gate does not return. *)
Lemma replay_add_node xs : ∀ w o w' t,
  Forall (λ x, x ∈ citus_worker_nodes (self w)) xs →
  for_each xs (add_worker conf get_host_name) w = (o, w', t) →
  ∃ done rest,
    xs = done ++ rest
    ∧ filter is_add_node t
      = flat_map (λ x, add_node_queries conf get_host_name x (self w)) done
    ∧ (o = Returned tt → rest = [])
    ∧ (o ≠ Returned tt → rest ≠ [])
    ∧ (∀ e, o = Raised e → e = ReadinessError).
Proof.
  induction xs as [|x xs IH]; intros w o w' t Hxs H.
  - inversion H; subst. exists [], []. by repeat split.
  - inversion Hxs as [|? ? Hx Hxs']; subst.
    rewrite for_each_cons, add_worker_eq in H.
    destruct (check_pod_readiness conf x w) as [[o1 w1] t1] eqn:E.
    destruct (check_frame _ _ _ _ _ _ E) as (Hs & Hg & _ & Ho).
    destruct (gate_effects_only _ Hg) as (_ & _ & Hga & _).
    destruct o1 as [[]|e1|].
    + destruct (for_each xs _ _) as [[o2 w2] t2] eqn:E2.
      inversion H; subst. rewrite Hs in E2.
      apply IH in E2 as (done & rest & -> & Ht2 & Hret & Hnret & Hr).
      * exists (x :: done), rest. cbn [self] in Ht2.
        rewrite (registered_worker_member _ _ _ Hx) in Ht2.
        split; [done|]. split; [|done].
        rewrite !filter_app, Hga, Ht2, registration_effects_add_node, Hs.
        rewrite (worker_joined_member _ _ Hx). cbn [flat_map app].
        f_equal. destruct (_ && _); reflexivity.
      * cbn [self]. rewrite (registered_worker_member _ _ _ Hx).
        destruct (_ && _); [|done]. by destruct (self w).
    + inversion H; subst. exists [], (x :: xs).
      repeat split; try done.
      intros e [= ->]. destruct Ho as [?|[?|?]]; congruence.
    + inversion H; subst. exists [], (x :: xs). by repeat split.
Qed.

End Effects.
Section Effects2.

Variable conf : EnvConf.
Variable get_host_name : string → string → string.



End Effects2.

Lemma call_add_eq conf get_host_name h pod w :
  h = AddMaster ∨ h = AddCoordinator →
  call conf get_host_name h pod w
  = match check_pod_readiness conf pod w with
    | (Returned _, w1, t1) =>
        let m1 := joined h pod (self w1) in
        match for_each (elements (citus_worker_nodes m1))
                (add_worker conf get_host_name)
                {| self := m1; api := api w1 |}
        with
        | (o, w2, t2) =>
            (o, w2, t1 ++ own_effects conf get_host_name h pod m1 ++ t2)
        end
    | r => r
    end.
Proof.
  intros [-> | ->]; cbn [call joined own_effects].
  - apply add_master_eq.
  - apply add_coordinator_eq.
Qed.

Lemma own_effects_add_node conf get_host_name h pod m :
  filter is_add_node (own_effects conf get_host_name h pod m) = [].
Proof.
  destruct h; try done; cbn [own_effects];
    unfold master_effects, coordinator_effects;
    by destruct (enough_workers conf m).
Qed.

Lemma own_effects_calls conf get_host_name h pod m :
  filter is_call (own_effects conf get_host_name h pod m)
  = own_effects conf get_host_name h pod m.
Proof.
  destruct h; try done; cbn [own_effects];
    unfold master_effects, coordinator_effects;
    by destruct (enough_workers conf m).
Qed.

(** ** Runs in which the platform never answers with an error *)

Section Quiet.

Variable conf : EnvConf.
Variable get_host_name : string → string → string.






End Quiet.



(** ** Where the members of the sets come from *)

Lemma handler_of_cases conf ev h :
  handler_of conf ev = Some h →
  (ev_type ev = "ADDED"%string
   ∧ (h = AddMaster ∨ h = AddCoordinator ∨ h = AddWorker))
  ∨ (ev_type ev = "DELETED"%string
     ∧ (h = RemoveMaster ∨ h = RemoveCoordinator ∨ h = RemoveWorker)).
Proof.
  unfold handler_of, parse_event, pod_interactions.
  destruct (decide _); [done|].
  destruct (decide (ev_type ev = "DELETED"%string)) as [Hd|Hd].
  - rewrite Hd, lookup_insert_eq. intros H. right. split; [done|].
    apply lookup_insert_Some in H as [[_ <-]|[_ H]]; [auto|].
    apply lookup_insert_Some in H as [[_ <-]|[_ H]]; [auto|].
    apply lookup_insert_Some in H as [[_ <-]|[_ H]]; [auto|done].
  - rewrite lookup_insert_ne by done.
    destruct (decide (ev_type ev = "ADDED"%string)) as [Ha|Ha].
    + rewrite Ha, lookup_insert_eq. intros H. left. split; [done|].
      apply lookup_insert_Some in H as [[_ <-]|[_ H]]; [auto|].
      apply lookup_insert_Some in H as [[_ <-]|[_ H]]; [auto|].
      apply lookup_insert_Some in H as [[_ <-]|[_ H]]; [auto|done].
    + rewrite lookup_insert_ne by done. done.
Qed.

(** The handler depends on the type of the event and on the role label. *)
Lemma handler_of_ext conf ev1 ev2 :
  ev_type ev1 = ev_type ev2 →
  get_citus_type (ev_object ev1) = get_citus_type (ev_object ev2) →
  handler_of conf ev1 = handler_of conf ev2.
Proof. unfold handler_of, parse_event. by intros -> ->. Qed.

Section Provenance.

Variable conf : EnvConf.
Variable get_host_name : string → string → string.
Variable evs : list event.
Variable answers : list response.

Lemma moves_provenance h pod m m' :
  moves conf h pod m m' → dispatched conf evs h pod →
  provenance conf evs m → provenance conf evs m'.
Proof.
  intros Hm Hd (Hms & Hcs & Hws).
  inversion Hm; subst; try done; unfold provenance; cbn;
    unfold registered_worker; try destruct (_ && _); cbn;
    repeat split; try done; intros n Hn.
  all: try (apply elem_of_difference in Hn as [Hn _]; auto).
  all: apply elem_of_union in Hn as [Hn|Hn]; [|by auto];
    apply elem_of_singleton in Hn; by subst.
Qed.

Lemma after_provenance i :
  provenance conf evs (self (after conf get_host_name evs answers i)).
Proof.
  induction i as [|i IH].
  - repeat split; intros n Hn; by apply not_elem_of_empty in Hn.
  - destruct (after_moves conf get_host_name evs answers i)
      as [->|(ev & h & Hev & Hh & Hm)]; [done|].
    eapply moves_provenance; [exact Hm| |done].
    exists ev. split; [|done]. by eapply list_elem_of_lookup_2.
Qed.

End Provenance.

(** ** The loop over the workers, from the answers of the platform *)

Lemma for_each_app {A} (xs ys : list A) body : ∀ w,
  for_each (xs ++ ys) body w
  = match for_each xs body w with
    | (Returned _, w1, t1) =>
        match for_each ys body w1 with (o, w2, t2) => (o, w2, t1 ++ t2) end
    | r => r
    end.
Proof.
  induction xs as [|x xs IH]; intros w.
  - cbn. by destruct (for_each ys body w) as [[o w1] t1].
  - cbn [app]. rewrite !for_each_cons.
    destruct (body x w) as [[[[]|e|] w1] t1]; try reflexivity.
    rewrite IH.
    destruct (for_each xs body w1) as [[[[]|e|] w2] t2]; try reflexivity.
    destruct (for_each ys body w2) as [[o3 w3] t3]. by rewrite app_assoc.
Qed.

Lemma polls_gate conf pod n : forallb is_gate (polls conf pod n) = true.
Proof. unfold polls. by induction n. Qed.

Lemma polls_read conf pod n y ns :
  ReadPodStatus y ns ∈ polls conf pod n → y = pod.
Proof.
  unfold polls. induction n as [|n IH]; cbn; intros H.
  - by apply not_elem_of_nil in H.
  - apply elem_of_cons in H as [H | H]; [congruence|].
    apply elem_of_cons in H as [H | H]; [discriminate|]. by apply IH.
Qed.

Lemma calls_not_read (t : list effect) y ns :
  filter is_call t = t → ReadPodStatus y ns ∉ t.
Proof.
  intros Ht Hin. rewrite <- Ht in Hin.
  apply list_elem_of_filter in Hin as [Hcall _]. done.
Qed.

Section Let_through.

Variable conf : EnvConf.
Variable get_host_name : string → string → string.

Lemma check_lets_through pod m chunk later :
  lets_through chunk →
  ∃ n,
    check_pod_readiness conf pod {| self := m; api := chunk ++ later |}
    = (Returned tt, {| self := m; api := later |},
       polls conf pod n ++ [ReadPodStatus pod (namespace conf)]).
Proof.
  intros (pre & l & -> & Hpre & Hl). rewrite <- app_assoc. cbn [app].
  rewrite (check_retried_prefix _ _ _ _ _ Hpre).
  rewrite (check_cons_ready _ _ _ _ _ Hl). by eexists.
Qed.

Lemma check_turned_away pod m pre later :
  forallb retried pre = true →
  check_pod_readiness conf pod
    {| self := m; api := pre ++ ApiRaises ApiException :: later |}
  = (Raised ReadinessError, {| self := m; api := later |},
     polls conf pod (length pre) ++ [ReadPodStatus pod (namespace conf)]).
Proof.
  intros Hpre. rewrite (check_retried_prefix _ _ _ _ _ Hpre).
  by rewrite check_cons_api.
Qed.

Lemma gate_trace_read pod n y :
  ReadPodStatus y (namespace conf)
    ∈ polls conf pod n ++ [ReadPodStatus pod (namespace conf)]
  ↔ y = pod.
Proof.
  split.
  - intros H. apply elem_of_app in H as [H | H].
    + by apply polls_read in H.
    + apply elem_of_cons in H as [H | H]; [congruence|].
      by apply not_elem_of_nil in H.
  - intros ->. apply elem_of_app. right. apply elem_of_cons. by left.
Qed.

Lemma gate_trace_add_node pod n :
  filter is_add_node
    (polls conf pod n ++ [ReadPodStatus pod (namespace conf)]) = [].
Proof.
  apply gate_effects_only. rewrite forallb_app, polls_gate. reflexivity.
Qed.

(** Workers of the set whose pods the platform lets through one after the
    other: the loop gets through all of them, polls each of them and no
    other pod, issues their add-node queries, uses up their answers and
    leaves the sets as they are. *)
Lemma replay_lets_through seen : ∀ chunks m later,
  Forall lets_through chunks → length chunks = length seen →
  Forall (λ x, x ∈ citus_worker_nodes m) seen →
  ∃ w2 t2,
    for_each seen (add_worker conf get_host_name)
      {| self := m; api := concat chunks ++ later |}
    = (Returned tt, w2, t2)
    ∧ api w2 = later
    ∧ (self w2 = m ∨ self w2 = with_init_provision true m)
    ∧ (∀ y, ReadPodStatus y (namespace conf) ∈ t2 ↔ y ∈ seen)
    ∧ filter is_add_node t2
      = flat_map (λ y, add_node_queries conf get_host_name y m) seen.
Proof.
  induction seen as [|x seen IH]; intros chunks m later Hc Hlen Hin.
  - destruct chunks; [|done]. eexists _, _. split; [reflexivity|].
    split; [done|]. split; [by left|]. split; [|done].
    intros y. split; intros Hy; by apply not_elem_of_nil in Hy.
  - destruct chunks as [|c chunks]; [done|].
    inversion Hc as [|? ? Hc1 Hc2]; subst.
    inversion Hin as [|? ? Hx Hin']; subst.
    cbn [concat]. rewrite <- app_assoc.
    destruct (check_lets_through x m c (concat chunks ++ later) Hc1)
      as (n & Hgate).
    rewrite for_each_cons, add_worker_eq, Hgate. cbn [self api].
    rewrite (registered_worker_member _ _ _ Hx).
    set (m' := if enough_workers conf m && negb (init_provision m)
               then with_init_provision true m else m).
    assert (Hm' : m' = m ∨ m' = with_init_provision true m)
      by (unfold m'; destruct (_ && _); auto).
    assert (Hin1 : Forall (λ y, y ∈ citus_worker_nodes m') seen)
      by (by destruct Hm' as [-> | ->]).
    destruct (IH chunks m' later Hc2 ltac:(by injection Hlen) Hin1)
      as (w2 & t2 & Hrun & Hapi & Hself & Hpolls & Hadd).
    rewrite Hrun. eexists _, _. split; [reflexivity|]. split; [done|].
    split; [|split].
    + destruct Hm' as [-> | ->]; [done|]. right.
      destruct Hself as [-> | ->]; [done|]. by destruct m.
    + intros y. rewrite elem_of_cons, <- Hpolls.
      rewrite 2!elem_of_app, gate_trace_read.
      pose proof (calls_not_read _ y (namespace conf)
                    (registration_effects_calls conf get_host_name x m)).
      tauto.
    + rewrite 2!filter_app, gate_trace_add_node, Hadd,
        registration_effects_add_node, (worker_joined_member _ _ Hx).
      cbn [flat_map app]. f_equal.
      by destruct Hm' as [-> | ->].
Qed.

End Let_through.

(** * The claims *)

(** C1 (amended).  In [check_pod_readiness] the failure of an attempt is
    of one of two kinds.  An answer that is an [ApiException] (the platform
    answered the status call with an error, for instance for a pod that does
    not exist) is raised to the caller as [ReadinessError] and not retried:
    the answers after it are left unused.  Any other failure (the call
    succeeds and some container is not ready, the status has no container
    statuses, or the call raises an exception that is not an [ApiException],
    as when the platform cannot be reached) is retried with a fixed delay of
    5000 ms and never surfaced: after a prefix [pre] of such answers the gate
    has polled and slept [length pre] times and is still waiting, or goes on
    with the next answer. *)
Theorem check_pod_readiness_policy conf pod m pre rest :
  forallb retried pre = true →
  check_pod_readiness conf pod {| self := m; api := pre |}
  = (Waiting, {| self := m; api := [] |}, polls conf pod (length pre))
  ∧ check_pod_readiness conf pod
      {| self := m; api := pre ++ ApiRaises ApiException :: rest |}
    = (Raised ReadinessError, {| self := m; api := rest |},
       polls conf pod (length pre) ++ [ReadPodStatus pod (namespace conf)])
  ∧ (∀ readiness, forallb id readiness = true →
       check_pod_readiness conf pod
         {| self := m; api := pre ++ PodStatus (Some readiness) :: rest |}
       = (Returned tt, {| self := m; api := rest |},
          polls conf pod (length pre)
          ++ [ReadPodStatus pod (namespace conf)]))
  ∧ (∀ readiness, forallb id readiness = false →
       retried (PodStatus (Some readiness)) = true)
  ∧ (∀ e, is_ApiException e = false → retried (ApiRaises e) = true).
Proof.
  intros Hpre. repeat split.
  - rewrite <- (app_nil_r pre) at 1.
    rewrite (check_retried_prefix _ _ _ _ _ Hpre), check_nil.
    by rewrite app_nil_r.
  - rewrite (check_retried_prefix _ _ _ _ _ Hpre). by rewrite check_cons_api.
  - intros l Hl. rewrite (check_retried_prefix _ _ _ _ _ Hpre).
    by rewrite (check_cons_ready _ _ _ _ _ Hl).
  - intros l Hl. cbn. by rewrite Hl.
  - intros e He. cbn. by rewrite He.
Qed.

(** C2 (amended).  Along every run the flag starts unset, once set it stays
    set, it changes from unset to set during at most one event, and that
    event is exactly the one whose processing first makes the size of the
    worker set reach the threshold, or reach 1 when the threshold is less
    than 1. *)
Theorem provisioning_flag_transition conf get_host_name evs answers :
  flag (after conf get_host_name evs answers 0) = false
  ∧ (∀ i j, i ≤ j → flag (after conf get_host_name evs answers i) = true →
       flag (after conf get_host_name evs answers j) = true)
  ∧ (∀ i j, flag_turns_on conf get_host_name evs answers i →
       flag_turns_on conf get_host_name evs answers j → i = j)
  ∧ (∀ i, flag_turns_on conf get_host_name evs answers i
       ↔ first_reach conf get_host_name (Z.max 1 (minimum_workers conf))
           evs answers i)
  ∧ ((1 ≤ minimum_workers conf)%Z →
     ∀ i, flag_turns_on conf get_host_name evs answers i
       ↔ first_reach conf get_host_name (minimum_workers conf)
           evs answers i).
Proof.
  split; [reflexivity|]. split; [apply after_flag_mono|].
  split; [|split; [apply flag_turns_on_first_reach|]].
  - intros i j [Hi Hi'] [Hj Hj'].
    destruct (Nat.lt_trichotomy i j) as [Hlt|[->|Hlt]]; [|done|].
    + rewrite (after_flag_mono _ _ _ _ (S i) j Hlt Hi') in Hj. done.
    + rewrite (after_flag_mono _ _ _ _ (S j) i Hlt Hj') in Hi. done.
  - intros Hthr i. rewrite flag_turns_on_first_reach.
    by rewrite Z.max_r.
Qed.

(** C3.  When [add_worker] ends with a [ReadinessError], the manager is
    what it was before the call, so the worker set is unchanged and the pod
    has not been added by this call; the call has made no provisioning
    call and no query; the loop of [run] catches the exception and the event
    ends there. *)
Theorem add_worker_readiness_error conf get_host_name pod w w' t :
  add_worker conf get_host_name pod w = (Raised ReadinessError, w', t) →
  self w' = self w
  ∧ citus_worker_nodes (self w') = citus_worker_nodes (self w)
  ∧ filter is_provision t = []
  ∧ filter is_query t = []
  ∧ (∀ ev, handler_of conf ev = Some AddWorker → name (ev_object ev) = pod →
       handle conf get_host_name ev w = (Returned tt, w', t)).
Proof.
  intros H. assert (H' := H). rewrite add_worker_eq in H.
  destruct (check_pod_readiness conf pod w) as [[o1 w1] t1] eqn:E.
  destruct (check_frame _ _ _ _ _ _ E) as (Hs & Hg & _ & _).
  destruct o1 as [[]| |]; inversion H; subst.
  destruct (gate_effects_only _ Hg) as (? & ? & _ & _).
  repeat split; try done; [by rewrite Hs|].
  intros ev Hh Hn. rewrite handle_eq, Hh, Hn. cbn [call]. unfold try_except.
  rewrite H'. cbn. by rewrite app_nil_r.
Qed.


(** C5 (amended).  A DELETED event of a worker that is not in the worker
    set returns normally and leaves the manager as it is, so no set changes;
    it still issues the compound deregistration query once for every member
    of the master set, and issues no query only when that set is empty. *)
Theorem remove_absent_worker conf get_host_name ev w :
  handler_of conf ev = Some RemoveWorker →
  name (ev_object ev) ∉ citus_worker_nodes (self w) →
  handle conf get_host_name ev w
  = (Returned tt, w,
     map (λ master,
            ExecuteQuery master (master_service conf) remove_worker_sql
              (get_host_name (name (ev_object ev)) (worker_service conf))
              (pg_port conf))
         (elements (citus_master_nodes (self w))))
  ∧ length (effects_of (handle conf get_host_name ev w))
    = size (citus_master_nodes (self w))
  ∧ (citus_master_nodes (self w) = ∅ →
     effects_of (handle conf get_host_name ev w) = []).
Proof.
  intros Hh Hout.
  assert (Heq : handle conf get_host_name ev w
    = (Returned tt, w,
       map (λ master,
              ExecuteQuery master (master_service conf) remove_worker_sql
                (get_host_name (name (ev_object ev)) (worker_service conf))
                (pg_port conf))
           (elements (citus_master_nodes (self w))))).
  { rewrite handle_eq, Hh. cbn [call]. unfold try_except.
    rewrite remove_worker_eq, with_worker_nodes_id; [by destruct w|].
    by apply difference_disjoint_L, disjoint_singleton_r. }
  rewrite Heq. cbn [effects_of snd]. split; [done|]. split.
  - by rewrite length_map.
  - intros ->. by rewrite elements_empty.
Qed.

(** C6.  A DELETED event of a worker returns normally; it removes the pod
    from the worker set and leaves the other sets; its effects are exactly
    one query for every member of the master set, addressed to that master
    in the master service, with the host name resolved for the worker in the
    worker service and the configured port; the query text first deletes the
    shard placements of that host and port and then removes the node.
    Nothing is addressed to a coordinator. *)
Theorem remove_worker_queries conf get_host_name ev w :
  handler_of conf ev = Some RemoveWorker →
  ∃ w' t,
    handle conf get_host_name ev w = (Returned tt, w', t)
    ∧ citus_worker_nodes (self w')
      = citus_worker_nodes (self w) ∖ {[name (ev_object ev)]}
    ∧ citus_master_nodes (self w') = citus_master_nodes (self w)
    ∧ citus_coordinator_nodes (self w') = citus_coordinator_nodes (self w)
    ∧ t = map (λ master,
                 ExecuteQuery master (master_service conf) remove_worker_sql
                   (get_host_name (name (ev_object ev))
                      (worker_service conf))
                   (pg_port conf))
              (elements (citus_master_nodes (self w)))
    ∧ length t = size (citus_master_nodes (self w))
    ∧ (∀ e, e ∈ t →
         ∃ master, master ∈ citus_master_nodes (self w)
           ∧ e = ExecuteQuery master (master_service conf) remove_worker_sql
                   (get_host_name (name (ev_object ev))
                      (worker_service conf))
                   (pg_port conf))
    ∧ remove_worker_sql
      = (delete_placement_sql ++ ";
            " ++ remove_node_sql)%string.
Proof.
  intros Hh. rewrite handle_eq, Hh. cbn [call]. unfold try_except.
  rewrite remove_worker_eq. eexists _, _. split; [reflexivity|]. cbn [self].
  unfold on_masters. repeat split.
  - by rewrite length_map.
  - intros e He. apply list_elem_of_fmap in He as (master & -> & Hin).
    exists master. split; [|done]. by apply elem_of_elements.
Qed.

(** C7.  A DELETED event of a master returns normally without any effect:
    no query, no provisioning call, no poll.  It removes the pod from the
    master set and changes nothing else: the worker set, the coordinator
    set and the flag are what they were. *)
Theorem remove_master_frame conf get_host_name ev w :
  handler_of conf ev = Some RemoveMaster →
  ∃ w',
    handle conf get_host_name ev w = (Returned tt, w', [])
    ∧ citus_master_nodes (self w')
      = citus_master_nodes (self w) ∖ {[name (ev_object ev)]}
    ∧ citus_worker_nodes (self w') = citus_worker_nodes (self w)
    ∧ citus_coordinator_nodes (self w') = citus_coordinator_nodes (self w)
    ∧ init_provision (self w') = init_provision (self w)
    ∧ api w' = api w.
Proof.
  intros Hh. rewrite handle_eq, Hh. cbn [call].
  eexists. split; [reflexivity|]. cbn. repeat split.
Qed.

(** C8.  If every pod carries the same role label in all its events of the
    stream, then after any number of events no name is in two of the three
    sets. *)
Theorem roles_stay_disjoint conf get_host_name evs answers i :
  fixed_roles evs →
  disjoint_roles (self (after conf get_host_name evs answers i)).
Proof.
  intros Hfix.
  destruct (after_provenance conf get_host_name evs answers i)
    as (Hms & Hcs & Hws).
  assert (Hclash : ∀ h1 h2 n,
            dispatched conf evs h1 n → dispatched conf evs h2 n →
            h1 = AddMaster ∨ h1 = AddCoordinator ∨ h1 = AddWorker →
            h2 = AddMaster ∨ h2 = AddCoordinator ∨ h2 = AddWorker →
            h1 = h2).
  { intros h1 h2 n (ev1 & Hin1 & Hh1 & Hn1) (ev2 & Hin2 & Hh2 & Hn2) Ha1 Ha2.
    assert (Htype : ev_type ev1 = ev_type ev2).
    { destruct (handler_of_cases _ _ _ Hh1) as [[E1 _]|[_ Hr1]];
        destruct (handler_of_cases _ _ _ Hh2) as [[E2 _]|[_ Hr2]];
        [congruence| | |].
      - destruct Ha2 as [ -> | [ -> | -> ] ], Hr2 as [?|[?|?]]; discriminate.
      - destruct Ha1 as [ -> | [ -> | -> ] ], Hr1 as [?|[?|?]]; discriminate.
      - destruct Ha1 as [ -> | [ -> | -> ] ], Hr1 as [?|[?|?]]; discriminate. }
    assert (Hrole : get_citus_type (ev_object ev1)
                    = get_citus_type (ev_object ev2))
      by (apply Hfix; [done..|congruence]).
    pose proof (handler_of_ext conf _ _ Htype Hrole). congruence. }
  repeat split; apply elem_of_disjoint; intros n H1 H2.
  - specialize (Hclash _ _ n (Hms n H1) (Hcs n H2)). naive_solver.
  - specialize (Hclash _ _ n (Hms n H1) (Hws n H2)). naive_solver.
  - specialize (Hclash _ _ n (Hcs n H1) (Hws n H2)). naive_solver.
Qed.

(** Whenever [add_master] or [add_coordinator] ends with an exception
    although the pod's own gate has let it through, the exception is the
    [ReadinessError] of a worker's gate in the loop: the pod is in its set,
    the add-node queries issued are those of the workers the loop got
    through, and the loop of [run] catches the exception. *)
Lemma replay_raise_inversion
    conf get_host_name h pod w w1 t1 e w' t :
  h = AddMaster ∨ h = AddCoordinator →
  check_pod_readiness conf pod w = (Returned tt, w1, t1) →
  call conf get_host_name h pod w = (Raised e, w', t) →
  e = ReadinessError
  ∧ (h = AddMaster → pod ∈ citus_master_nodes (self w'))
  ∧ (h = AddCoordinator → pod ∈ citus_coordinator_nodes (self w'))
  ∧ (∃ done rest,
       elements (citus_worker_nodes (self w)) = done ++ rest
       ∧ rest ≠ []
       ∧ filter is_add_node t
         = flat_map
             (λ x, add_node_queries conf get_host_name x
                     (joined h pod (self w)))
             done)
  ∧ (∀ ev, handler_of conf ev = Some h → name (ev_object ev) = pod →
       handle conf get_host_name ev w = (Returned tt, w', t)).
Proof.
  intros Hh Hgate Hcall. assert (Hcall' := Hcall).
  rewrite (call_add_eq _ _ _ _ _ Hh), Hgate in Hcall. cbn zeta in Hcall.
  destruct (check_frame _ _ _ _ _ _ Hgate) as (Hs & Hg & _ & _).
  destruct (gate_effects_only _ Hg) as (_ & _ & Hga & _).
  destruct (for_each _ _ _) as [[o2 w2] t2] eqn:E2.
  inversion Hcall; subst.
  assert (Hsets : citus_worker_nodes (joined h pod (self w1))
                  = citus_worker_nodes (self w)).
  { rewrite Hs. by destruct Hh as [-> | ->]. }
  rewrite Hsets in E2.
  assert (Hmem : Forall
            (λ x, x ∈ citus_worker_nodes
                        (self {| self := joined h pod (self w1);
                                 api := api w1 |}))
            (elements (citus_worker_nodes (self w)))).
  { cbn [self]. rewrite Hsets. apply elements_members. }
  pose proof (replay_self conf get_host_name _ _ _ _ _ Hmem E2) as Hself.
  apply replay_add_node in E2
    as (seen & rest & Hxs & Ht2 & _ & Hrest & Hr); [|exact Hmem].
  cbn [self] in *. rewrite Hs in *.
  split; [by apply Hr|].
  split; [|split; [|split]].
  - intros ->. destruct Hself as [-> | (_ & _ & _ & ->)]; cbn;
      apply elem_of_union; left; by apply elem_of_singleton.
  - intros ->. destruct Hself as [-> | (_ & _ & _ & ->)]; cbn;
      apply elem_of_union; left; by apply elem_of_singleton.
  - exists seen, rest. split; [done|]. split; [by apply Hrest|].
    by rewrite !filter_app, Hga, own_effects_add_node, Ht2.
  - intros ev Hev Hn. rewrite handle_eq, Hev, Hn. unfold try_except.
    rewrite Hcall'. rewrite (Hr e eq_refl). cbn. by rewrite app_nil_r.
Qed.

(** C9.  [add_master] and [add_coordinator] call [add_worker], readiness
    gate included, for the members of the worker set, one after the other.
    Let the platform let the pod itself through ([chunk]), then the workers
    [seen] that come first in the iteration ([chunks], one run of answers
    for each), and let it answer the poll of the next worker [x] with an
    [ApiException], after answers [pre] that only make the gate poll again.
    Then the handler ends with [ReadinessError] and does no more: the pod is
    in its set, the worker set is what it was, the pods polled are the pod
    itself, the workers [seen] and [x], so that no worker after [x] is even
    polled, and the add-node queries issued are those of the workers [seen]
    and of no other.  The loop of [run] catches the exception: the event is
    handled and leaves this state and these effects. *)
Theorem replay_aborted_by_worker_gate
    conf get_host_name h pod m chunk chunks seen x rest pre later :
  h = AddMaster ∨ h = AddCoordinator →
  elements (citus_worker_nodes m) = seen ++ x :: rest →
  lets_through chunk →
  Forall lets_through chunks → length chunks = length seen →
  forallb retried pre = true →
  let w := {| self := m;
              api := chunk ++ concat chunks ++ pre
                     ++ ApiRaises ApiException :: later |} in
  ∃ w' t,
    call conf get_host_name h pod w = (Raised ReadinessError, w', t)
    ∧ api w' = later
    ∧ (h = AddMaster → pod ∈ citus_master_nodes (self w'))
    ∧ (h = AddCoordinator → pod ∈ citus_coordinator_nodes (self w'))
    ∧ citus_worker_nodes (self w') = citus_worker_nodes m
    ∧ (∀ y, ReadPodStatus y (namespace conf) ∈ t
            ↔ y = pod ∨ y ∈ seen ∨ y = x)
    ∧ (∀ y, y ∈ rest → y ≠ pod → ReadPodStatus y (namespace conf) ∉ t)
    ∧ filter is_add_node t
      = flat_map
          (λ y, add_node_queries conf get_host_name y (joined h pod m)) seen
    ∧ (∀ ev, handler_of conf ev = Some h → name (ev_object ev) = pod →
         handle conf get_host_name ev w = (Returned tt, w', t)).
Proof.
  intros Hh Hel Hc Hcs Hlen Hpre w.
  assert (Hws : citus_worker_nodes (joined h pod m) = citus_worker_nodes m)
    by (by destruct Hh as [-> | ->]).
  assert (Hin : Forall (λ y, y ∈ citus_worker_nodes (joined h pod m)) seen).
  { rewrite Hws. apply Forall_forall. intros y Hy.
    apply elem_of_elements. rewrite Hel. apply elem_of_app. by left. }
  assert (Hx : x ∈ citus_worker_nodes m).
  { apply elem_of_elements. rewrite Hel. apply elem_of_app. right.
    apply elem_of_cons. by left. }
  destruct (check_lets_through conf pod m chunk
              (concat chunks ++ pre ++ ApiRaises ApiException :: later) Hc)
    as (n & Hgate).
  destruct (replay_lets_through conf get_host_name seen chunks
              (joined h pod m) (pre ++ ApiRaises ApiException :: later)
              Hcs Hlen Hin)
    as ([m2 a2] & t2 & Hrun & Hapi & Hself & Hpolls & Hadd).
  cbn [self api] in Hapi, Hself. subst a2.
  assert (Hcall : call conf get_host_name h pod w
    = (Raised ReadinessError, {| self := m2; api := later |},
       (polls conf pod n ++ [ReadPodStatus pod (namespace conf)])
       ++ own_effects conf get_host_name h pod (joined h pod m)
       ++ t2 ++ polls conf x (length pre)
       ++ [ReadPodStatus x (namespace conf)])).
  { rewrite (call_add_eq _ _ _ _ _ Hh). unfold w. rewrite Hgate.
    cbv zeta. cbn [self api]. rewrite Hws, Hel, for_each_app, Hrun.
    rewrite for_each_cons, add_worker_eq.
    by rewrite (check_turned_away conf x m2 pre later Hpre). }
  eexists _, _. split; [exact Hcall|]. cbn [self api].
  split; [done|].
  split.
  { intros ->. destruct Hself as [-> | ->]; cbn;
      by apply elem_of_union_l, elem_of_singleton. }
  split.
  { intros ->. destruct Hself as [-> | ->]; cbn;
      by apply elem_of_union_l, elem_of_singleton. }
  split. { by destruct Hself as [-> | ->]. }
  split.
  { intros y.
    rewrite (elem_of_app (polls conf pod n ++ [_])),
      (elem_of_app (own_effects _ _ _ _ _)), (elem_of_app t2),
      !gate_trace_read, Hpolls.
    pose proof (calls_not_read _ y (namespace conf)
                  (own_effects_calls conf get_host_name h pod
                     (joined h pod m))).
    tauto. }
  split.
  { intros y Hy Hne.
    rewrite (elem_of_app (polls conf pod n ++ [_])),
      (elem_of_app (own_effects _ _ _ _ _)), (elem_of_app t2),
      !gate_trace_read, Hpolls.
    pose proof (calls_not_read _ y (namespace conf)
                  (own_effects_calls conf get_host_name h pod
                     (joined h pod m))).
    pose proof (NoDup_elements (citus_worker_nodes m)) as Hnd.
    rewrite Hel in Hnd. apply NoDup_app in Hnd as (_ & Hsep & Hnd).
    apply NoDup_cons in Hnd as (Hxr & _).
    assert (y ∉ seen).
    { intros Hs. apply (Hsep _ Hs). apply elem_of_cons. by right. }
    assert (y ≠ x) by congruence.
    tauto. }
  split.
  { rewrite (filter_app _ (polls conf pod n ++ [_])),
      (filter_app _ (own_effects _ _ _ _ _)), (filter_app _ t2),
      !gate_trace_add_node, own_effects_add_node, Hadd.
    by rewrite app_nil_r. }
  intros ev Hev Hname. rewrite (handle_eq conf get_host_name), Hev, Hname.
  unfold try_except. rewrite Hcall. cbn. by rewrite app_nil_r.
Qed.


(** * The claims on examples *)

(** Two polls that find a container not ready or the platform out of reach:
    the gate has slept twice and is still waiting. *)
Lemma check_pod_readiness_policy_witness :
  check_pod_readiness (demo_conf 2) "w1"
    (boot [not_ready; ApiRaises TransportError])
  = (Waiting, boot [], polls (demo_conf 2) "w1" 2).
Proof.
  apply (check_pod_readiness_policy (demo_conf 2) "w1" init
           [not_ready; ApiRaises TransportError] []).
  reflexivity.
Defined.

(** A pod that is not ready at the first poll and ready at the second is
    let through after one delay: no [ReadinessError] is raised. *)
Lemma not_ready_is_polled_again :
  check_pod_readiness (demo_conf 2) "w1" (boot [not_ready; ready])
  = (Returned tt, boot [],
     [ReadPodStatus "w1" "default"; Sleep 5000; ReadPodStatus "w1" "default"])
  ∧ outcome_of (check_pod_readiness (demo_conf 2) "w1"
                  (boot [not_ready; ready]))
    ≠ Raised ReadinessError.
Proof. split; [reflexivity|discriminate]. Qed.

(** Threshold 2: the second worker makes the size reach 2. *)
Lemma provisioning_flag_transition_witness :
  first_reach (demo_conf 2) demo_host 2
    [pod_event "ADDED" "worker" "w1"; pod_event "ADDED" "worker" "w2"]
    [ready; not_ready; ready] 1.
Proof.
  destruct (provisioning_flag_transition (demo_conf 2) demo_host
              [pod_event "ADDED" "worker" "w1";
               pod_event "ADDED" "worker" "w2"]
              [ready; not_ready; ready]) as (_ & _ & _ & _ & H).
  apply H.
  - vm_compute. discriminate.
  - split; vm_compute; reflexivity.
Defined.

(** Threshold 0: the size of the worker set is at the threshold from the
    start, also after the master's event; the flag is set by the event of
    the first worker. *)
Lemma flag_turns_on_below_threshold :
  flag_turns_on (demo_conf 0) demo_host
    [pod_event "ADDED" "master" "m1"; pod_event "ADDED" "worker" "w1"]
    [ready; ready; ready] 1
  ∧ ¬ first_reach (demo_conf 0) demo_host (minimum_workers (demo_conf 0))
        [pod_event "ADDED" "master" "m1"; pod_event "ADDED" "worker" "w1"]
        [ready; ready; ready] 1.
Proof.
  split.
  - split; vm_compute; reflexivity.
  - intros [Hlow _]. specialize (Hlow 0 (Nat.le_0_l 1)).
    vm_compute in Hlow. discriminate.
Qed.

Lemma add_worker_readiness_error_witness :
  self (boot [ready]) = self (boot [ApiRaises ApiException; ready])
  ∧ citus_worker_nodes (self (boot [ready]))
    = citus_worker_nodes (self (boot [ApiRaises ApiException; ready]))
  ∧ filter is_provision [ReadPodStatus "w1" "default"] = []
  ∧ filter is_query [ReadPodStatus "w1" "default"] = []
  ∧ (∀ ev, handler_of (demo_conf 1) ev = Some AddWorker →
       name (ev_object ev) = "w1"%string →
       handle (demo_conf 1) demo_host ev
         (boot [ApiRaises ApiException; ready])
       = (Returned tt, boot [ready], [ReadPodStatus "w1" "default"])).
Proof.
  apply (add_worker_readiness_error (demo_conf 1) demo_host "w1"
           (boot [ApiRaises ApiException; ready])).
  reflexivity.
Defined.



(** A master has joined; the DELETED event of a worker that never joined
    issues the deregistration query on that master. *)
Lemma remove_absent_worker_witness :
  length
    (effects_of
       (handle (demo_conf 2) demo_host (pod_event "DELETED" "worker" "w9")
          (after (demo_conf 2) demo_host [pod_event "ADDED" "master" "m1"]
             [ready] 1)))
  = size (citus_master_nodes
            (self (after (demo_conf 2) demo_host
                     [pod_event "ADDED" "master" "m1"] [ready] 1))).
Proof.
  apply (remove_absent_worker (demo_conf 2) demo_host
           (pod_event "DELETED" "worker" "w9")
           (after (demo_conf 2) demo_host [pod_event "ADDED" "master" "m1"]
              [ready] 1)).
  - reflexivity.
  - intros H. vm_compute in H. discriminate.
Defined.

Lemma remove_absent_worker_queries_masters :
  ¬ ("w9" : string)
    ∈ citus_worker_nodes
        (self (after (demo_conf 2) demo_host
                 [pod_event "ADDED" "master" "m1"] [ready] 1))
  ∧ effects_of
      (handle (demo_conf 2) demo_host (pod_event "DELETED" "worker" "w9")
         (after (demo_conf 2) demo_host [pod_event "ADDED" "master" "m1"]
            [ready] 1))
    = [ExecuteQuery "m1" "pg-citus-master" remove_worker_sql
         "w9.pg-citus-worker" 5432].
Proof.
  split.
  - intros H. vm_compute in H. discriminate.
  - vm_compute. reflexivity.
Qed.

(** A master and a coordinator have joined, then a worker; its DELETED
    event issues one query, on the master. *)
Lemma remove_worker_queries_witness :
  ∃ w' t,
    handle (demo_conf 2) demo_host (pod_event "DELETED" "worker" "w1")
      (after (demo_conf 2) demo_host
         [pod_event "ADDED" "master" "m1";
          pod_event "ADDED" "coordinator" "c1";
          pod_event "ADDED" "worker" "w1"]
         [ready; ready; ready] 3)
    = (Returned tt, w', t)
    ∧ t = [ExecuteQuery "m1" "pg-citus-master" remove_worker_sql
             "w1.pg-citus-worker" 5432].
Proof.
  destruct (remove_worker_queries (demo_conf 2) demo_host
              (pod_event "DELETED" "worker" "w1")
              (after (demo_conf 2) demo_host
                 [pod_event "ADDED" "master" "m1";
                  pod_event "ADDED" "coordinator" "c1";
                  pod_event "ADDED" "worker" "w1"]
                 [ready; ready; ready] 3)
              eq_refl)
    as (w' & t & Hrun & _ & _ & _ & Ht & _).
  exists w', t. split; [exact Hrun|]. rewrite Ht. vm_compute. reflexivity.
Defined.

(** A master joins and is deleted: the master set is empty again and the
    DELETED event has no effect. *)
Lemma remove_master_frame_witness :
  ∃ w',
    handle (demo_conf 2) demo_host (pod_event "DELETED" "master" "m1")
      (after (demo_conf 2) demo_host [pod_event "ADDED" "master" "m1"]
         [ready] 1)
    = (Returned tt, w', [])
    ∧ elements (citus_master_nodes (self w')) = [].
Proof.
  destruct (remove_master_frame (demo_conf 2) demo_host
              (pod_event "DELETED" "master" "m1")
              (after (demo_conf 2) demo_host
                 [pod_event "ADDED" "master" "m1"] [ready] 1)
              eq_refl)
    as (w' & Hrun & Hm & _).
  exists w'. split; [exact Hrun|]. rewrite Hm. vm_compute. reflexivity.
Defined.

Lemma roles_stay_disjoint_witness :
  disjoint_roles
    (self (after (demo_conf 2) demo_host
             [pod_event "ADDED" "worker" "w1";
              pod_event "ADDED" "master" "m1";
              pod_event "DELETED" "worker" "w1"]
             [ready; ready; ready] 3)).
Proof.
  apply roles_stay_disjoint.
  intros ev1 ev2 H1 H2 Hn.
  repeat (apply elem_of_cons in H1 as [->|H1]);
    try (by apply not_elem_of_nil in H1);
    repeat (apply elem_of_cons in H2 as [->|H2]);
    try (by apply not_elem_of_nil in H2);
    first [reflexivity | discriminate Hn].
Defined.

(** A master joins three workers; the platform lets the master through,
    then w3, the first worker of the iteration, and answers the poll of w1,
    the next one, with an error: the master is registered, w3 has been added
    to it, and w2 has not even been polled. *)
Lemma replay_aborted_by_worker_gate_witness :
  ∃ w' t,
    call (demo_conf 2) demo_host AddMaster "m1"
      {| self := self (demo_three_workers []);
         api := [not_ready; ready; ready; not_ready;
                 ApiRaises ApiException; ready] |}
    = (Raised ReadinessError, w', t)
    ∧ api w' = [ready]
    ∧ ("m1" : string) ∈ citus_master_nodes (self w')
    ∧ ReadPodStatus "w1" "default" ∈ t
    ∧ ¬ ReadPodStatus "w2" "default" ∈ t
    ∧ filter is_add_node t
      = [ExecuteQuery "m1" "pg-citus-master" add_node_sql
           "w3.pg-citus-worker" 5432].
Proof.
  assert (Hel : elements
                  (citus_worker_nodes (self (demo_three_workers [])))
                = ["w3"%string] ++ "w1"%string :: ["w2"%string])
    by (vm_compute; reflexivity).
  assert (Hown : lets_through [not_ready; ready])
    by (exists [not_ready], [true]; repeat split; reflexivity).
  assert (Hw3 : Forall lets_through [[ready]]).
  { constructor; [|constructor].
    exists [], [true]. repeat split; reflexivity. }
  destruct (replay_aborted_by_worker_gate (demo_conf 2) demo_host
              AddMaster "m1" (self (demo_three_workers []))
              [not_ready; ready] [[ready]] ["w3"%string] "w1"%string
              ["w2"%string] [not_ready] [ready]
              (or_introl eq_refl) Hel Hown Hw3 eq_refl eq_refl)
    as (w' & t & Hcall & Hapi & Hmaster & _ & _ & Hpolled & Hrest & Hadd & _).
  exists w', t. split; [exact Hcall|]. split; [exact Hapi|].
  split; [by apply Hmaster|].
  split; [apply Hpolled; by right; right|].
  split.
  - apply Hrest; [apply elem_of_cons; by left|discriminate].
  - rewrite Hadd. vm_compute. reflexivity.
Defined.



(** * Further properties of the code *)

(** ** The dispatcher *)

Lemma get_citus_type_empty pod :
  get_citus_type pod = ""%string
  ↔ labels pod = None
    ∨ ∃ l, labels pod = Some l
           ∧ (l !! "citusType"%string = None
              ∨ l !! "citusType"%string = Some ""%string).
Proof.
  unfold get_citus_type. destruct (labels pod) as [l|]; [|by split; auto].
  destruct (decide (l = ∅)) as [->|Hne].
  - split; [|done]. intros _. right. exists ∅. split; [done|]. left.
    apply lookup_empty.
  - destruct (l !! "citusType"%string) as [v|] eqn:E; cbn.
    + split.
      * intros ->. right. exists l. by rewrite E; auto.
      * intros [?|(l' & [= <-] & [?|?])]; congruence.
    + split; [|done]. intros _. right. exists l. auto.
Qed.

Ltac lookup_label :=
  repeat first
    [ rewrite lookup_insert_ne by congruence
    | match goal with
      | H : get_citus_type _ = _ |- _ => rewrite H; apply lookup_insert_eq
      end
    | apply lookup_empty ].

Lemma handler_of_lookup conf ev :
  get_citus_type (ev_object ev) ≠ ""%string →
  handler_of conf ev
  = if decide (ev_type ev = "ADDED"%string) then
      if decide (get_citus_type (ev_object ev) = worker_label conf)
      then Some AddWorker
      else if decide (get_citus_type (ev_object ev) = coordinator_label conf)
      then Some AddCoordinator
      else if decide (get_citus_type (ev_object ev) = master_label conf)
      then Some AddMaster
      else None
    else if decide (ev_type ev = "DELETED"%string) then
      if decide (get_citus_type (ev_object ev) = worker_label conf)
      then Some RemoveWorker
      else if decide (get_citus_type (ev_object ev) = coordinator_label conf)
      then Some RemoveCoordinator
      else if decide (get_citus_type (ev_object ev) = master_label conf)
      then Some RemoveMaster
      else None
    else None.
Proof.
  intros Hct. unfold handler_of, parse_event, pod_interactions.
  destruct (decide (get_citus_type _ = ""%string)); [done|].
  destruct (decide (ev_type ev = "ADDED"%string)) as [Ha|Ha].
  - rewrite Ha, lookup_insert_ne by done. rewrite lookup_insert_eq.
    repeat case_decide; lookup_label.
  - destruct (decide (ev_type ev = "DELETED"%string)) as [Hd|Hd].
    + rewrite Hd, lookup_insert_eq.
      repeat case_decide; lookup_label.
    + rewrite !lookup_insert_ne by congruence. done.
Qed.

Lemma handler_of_unlabelled conf ev :
  get_citus_type (ev_object ev) = ""%string → handler_of conf ev = None.
Proof.
  intros Hct. unfold handler_of, parse_event. by destruct (decide _).
Qed.

(** X1.  An event whose type is neither ADDED nor DELETED, or whose role
    label is none of the three configured labels, is dropped: the loop goes
    on to the next event with the manager untouched, no effect, and no answer
    of the platform used. *)
Theorem unhandled_event_dropped conf get_host_name ev w :
  (ev_type ev ≠ "ADDED"%string ∧ ev_type ev ≠ "DELETED"%string)
  ∨ (get_citus_type (ev_object ev) ≠ master_label conf
     ∧ get_citus_type (ev_object ev) ≠ coordinator_label conf
     ∧ get_citus_type (ev_object ev) ≠ worker_label conf) →
  handle conf get_host_name ev w = (Returned tt, w, []).
Proof.
  intros H. rewrite handle_eq.
  destruct (decide (get_citus_type (ev_object ev) = ""%string)) as [E|E].
  - by rewrite (handler_of_unlabelled _ _ E).
  - rewrite (handler_of_lookup _ _ E).
    destruct H as [[Ha Hd]|(Hm & Hc & Hw)]; repeat case_decide; done.
Qed.

(** X2.  The handler an event is dispatched to, for each of the six handlers:
    the event type selects the table, the role label the entry, and where
    two roles are configured with the same label the entry written last
    wins (worker over coordinator over master).  An empty label selects
    nothing. *)
Theorem dispatch_table conf ev :
  (handler_of conf ev = Some AddWorker
   ↔ ev_type ev = "ADDED"%string
     ∧ get_citus_type (ev_object ev) ≠ ""%string
     ∧ get_citus_type (ev_object ev) = worker_label conf)
  ∧ (handler_of conf ev = Some AddCoordinator
     ↔ ev_type ev = "ADDED"%string
       ∧ get_citus_type (ev_object ev) ≠ ""%string
       ∧ get_citus_type (ev_object ev) = coordinator_label conf
       ∧ get_citus_type (ev_object ev) ≠ worker_label conf)
  ∧ (handler_of conf ev = Some AddMaster
     ↔ ev_type ev = "ADDED"%string
       ∧ get_citus_type (ev_object ev) ≠ ""%string
       ∧ get_citus_type (ev_object ev) = master_label conf
       ∧ get_citus_type (ev_object ev) ≠ coordinator_label conf
       ∧ get_citus_type (ev_object ev) ≠ worker_label conf)
  ∧ (handler_of conf ev = Some RemoveWorker
     ↔ ev_type ev = "DELETED"%string
       ∧ get_citus_type (ev_object ev) ≠ ""%string
       ∧ get_citus_type (ev_object ev) = worker_label conf)
  ∧ (handler_of conf ev = Some RemoveCoordinator
     ↔ ev_type ev = "DELETED"%string
       ∧ get_citus_type (ev_object ev) ≠ ""%string
       ∧ get_citus_type (ev_object ev) = coordinator_label conf
       ∧ get_citus_type (ev_object ev) ≠ worker_label conf)
  ∧ (handler_of conf ev = Some RemoveMaster
     ↔ ev_type ev = "DELETED"%string
       ∧ get_citus_type (ev_object ev) ≠ ""%string
       ∧ get_citus_type (ev_object ev) = master_label conf
       ∧ get_citus_type (ev_object ev) ≠ coordinator_label conf
       ∧ get_citus_type (ev_object ev) ≠ worker_label conf).
Proof.
  destruct (decide (get_citus_type (ev_object ev) = ""%string)) as [E|E].
  - rewrite (handler_of_unlabelled _ _ E).
    repeat split; first [discriminate | intros (_ & ? & _); done].
  - rewrite (handler_of_lookup _ _ E).
    repeat case_decide;
      intuition (first [done | discriminate | congruence]).
Qed.

(** X3.  A pod without labels, with an empty label dictionary, without the
    [citusType] label or with that label empty is ignored, whatever the type
    of its event. *)
Theorem unlabelled_pod_ignored conf get_host_name ev w :
  labels (ev_object ev) = None
  ∨ (∃ l, labels (ev_object ev) = Some l
          ∧ (l !! "citusType"%string = None
             ∨ l !! "citusType"%string = Some ""%string)) →
  get_citus_type (ev_object ev) = ""%string
  ∧ handle conf get_host_name ev w = (Returned tt, w, []).
Proof.
  intros H. apply get_citus_type_empty in H. split; [done|].
  by rewrite handle_eq, (handler_of_unlabelled _ _ H).
Qed.

(** ** Exceptions and the loop *)

Lemma call_raises conf get_host_name h pod w e w' t :
  call conf get_host_name h pod w = (Raised e, w', t) → e = ReadinessError.
Proof.
  intros H.
  assert (Hw : ∀ x w0 e0 w1 t1,
            add_worker conf get_host_name x w0 = (Raised e0, w1, t1) →
            e0 = ReadinessError).
  { intros x w0 e0 w1 t1 Hx. rewrite add_worker_eq in Hx.
    destruct (check_pod_readiness conf x w0) as [[o2 w2] t2] eqn:E.
    destruct (check_frame _ _ _ _ _ _ E) as (_ & _ & _ & Ho).
    destruct o2 as [[]|e2|]; inversion Hx; subst.
    destruct Ho as [?|[?|?]]; congruence. }
  assert (Hr : ∀ xs w0 e0 w1 t1,
            for_each xs (add_worker conf get_host_name) w0
            = (Raised e0, w1, t1) → e0 = ReadinessError).
  { induction xs as [|x xs IH]; intros w0 e0 w1 t1 Hx; [done|].
    rewrite for_each_cons in Hx.
    destruct (add_worker _ _ x w0) as [[o2 w2] t2] eqn:E.
    destruct o2 as [[]|e2|]; [|inversion Hx; subst; by eapply Hw|done].
    destruct (for_each xs _ w2) as [[o3 w3] t3] eqn:E3.
    inversion Hx; subst. by eapply IH. }
  destruct h; cbn [call] in H;
    [rewrite add_master_eq in H|rewrite add_coordinator_eq in H
    |by eapply Hw|done|done|by rewrite remove_worker_eq in H].
  all: destruct (check_pod_readiness conf pod w) as [[o2 w2] t2] eqn:E;
    destruct (check_frame _ _ _ _ _ _ E) as (_ & _ & _ & Ho);
    destruct o2 as [[]|e2|];
    [|inversion H; subst; destruct Ho as [?|[?|?]]; congruence|done];
    cbv zeta in H;
    destruct (for_each _ _ _) as [[o3 w3] t3] eqn:E3;
    inversion H; subst; by eapply Hr.
Qed.

Lemma handle_outcome conf get_host_name ev w o w' t :
  handle conf get_host_name ev w = (o, w', t) →
  o = Returned tt ∨ o = Waiting.
Proof.
  rewrite handle_eq. destruct (handler_of conf ev) as [h|].
  - unfold try_except.
    destruct (call _ _ _ _ _) as [[[[]|e|] w1] t1] eqn:E; intros H.
    + inversion H; by left.
    + rewrite (call_raises _ _ _ _ _ _ _ _ E) in H. inversion H; by left.
    + inversion H; by right.
  - intros H; inversion H; by left.
Qed.

(** With collaborators whose calls return, as they do here, the loop of
    [run] gets through the events or is blocked in a gate: the only
    exception a handler raises by itself is [ReadinessError], which the loop
    catches. *)
Lemma run_never_raises conf get_host_name evs w :
  outcome_of (run conf get_host_name evs w) = Returned tt
  ∨ outcome_of (run conf get_host_name evs w) = Waiting.
Proof.
  unfold run. revert w. induction evs as [|ev evs IH]; intros w; [by left|].
  rewrite for_each_cons.
  destruct (handle _ _ ev w) as [[o1 w1] t1] eqn:E.
  destruct (handle_outcome _ _ _ _ _ _ _ E) as [-> | ->]; [|by right].
  specialize (IH w1).
  destruct (for_each evs _ w1) as [[o2 w2] t2]. exact IH.
Qed.

(** X4.  An ADDED event of a pod whose status the platform refuses with an
    [ApiException], after any number of answers that make the gate poll
    again, is given up and the loop goes on: [check_pod_readiness] turns the
    exception into a [ReadinessError], the handler lets it through before it
    has touched the manager, and [run] catches it.  The run of the event and
    of the events after it is the polls of the pod, each but the last
    followed by the delay, and then the run of the events after it, from the
    same manager and the answers that are left. *)
Theorem readiness_error_is_caught
    conf get_host_name ev evs h m pre later :
  handler_of conf ev = Some h →
  is_add h = true →
  forallb retried pre = true →
  run conf get_host_name (ev :: evs)
    {| self := m; api := pre ++ ApiRaises ApiException :: later |}
  = match run conf get_host_name evs {| self := m; api := later |} with
    | (o, w2, t2) =>
        (o, w2,
         (polls conf (name (ev_object ev)) (length pre)
          ++ [ReadPodStatus (name (ev_object ev)) (namespace conf)]) ++ t2)
    end.
Proof.
  intros Hev Hadd Hpre. unfold run. rewrite for_each_cons.
  rewrite (handle_eq conf get_host_name), Hev. unfold try_except.
  assert (Hcall : call conf get_host_name h (name (ev_object ev))
            {| self := m; api := pre ++ ApiRaises ApiException :: later |}
          = (Raised ReadinessError, {| self := m; api := later |},
             polls conf (name (ev_object ev)) (length pre)
             ++ [ReadPodStatus (name (ev_object ev)) (namespace conf)])).
  { destruct h; try discriminate; cbn [call];
      rewrite ?add_master_eq, ?add_coordinator_eq, ?add_worker_eq;
      by rewrite (check_turned_away conf _ m pre later Hpre). }
  rewrite Hcall. cbn [is_ReadinessError]. unfold ret.
  rewrite app_nil_r.
  by destruct (for_each evs _ _) as [[o2 w2] t2].
Qed.

(** The status of worker w1 is not ready, then refused; master m1 comes next
    and is registered, with no worker known. *)
Lemma readiness_error_is_caught_witness :
  run (demo_conf 2) demo_host
    [pod_event "ADDED" "worker" "w1"; pod_event "ADDED" "master" "m1"]
    (boot [not_ready; ApiRaises ApiException; ready])
  = (Returned tt,
     {| self := master_joined "m1" init; api := [] |},
     [ReadPodStatus "w1" "default"; Sleep 5000; ReadPodStatus "w1" "default";
      ReadPodStatus "m1" "default";
      ExecuteQuery "m1" "pg-citus-master" set_coordinator_sql
        "m1.pg-citus-master" 5432]).
Proof.
  assert (Hev : handler_of (demo_conf 2) (pod_event "ADDED" "worker" "w1")
                = Some AddWorker) by (vm_compute; reflexivity).
  pose proof (readiness_error_is_caught (demo_conf 2) demo_host
                (pod_event "ADDED" "worker" "w1")
                [pod_event "ADDED" "master" "m1"] AddWorker init
                [not_ready] [ready] Hev eq_refl eq_refl) as Hrun.
  cbn [app] in Hrun. unfold boot. rewrite Hrun. vm_compute. reflexivity.
Defined.

(** A MODIFIED event of a worker is dropped. *)
Lemma unhandled_event_dropped_witness :
  handle (demo_conf 2) demo_host (pod_event "MODIFIED" "worker" "w1")
    (boot [ready])
  = (Returned tt, boot [ready], []).
Proof.
  apply (unhandled_event_dropped (demo_conf 2) demo_host
           (pod_event "MODIFIED" "worker" "w1") (boot [ready])).
  left. split; discriminate.
Defined.

(** An ADDED event of a pod that has no labels is ignored. *)
Lemma unlabelled_pod_ignored_witness :
  get_citus_type {| labels := None; name := "w1" |} = ""%string
  ∧ handle (demo_conf 2) demo_host
      {| ev_type := "ADDED";
         ev_object := {| labels := None; name := "w1" |} |}
      (boot [ready])
    = (Returned tt, boot [ready], []).
Proof.
  apply (unlabelled_pod_ignored (demo_conf 2) demo_host
           {| ev_type := "ADDED";
              ev_object := {| labels := None; name := "w1" |} |}
           (boot [ready])).
  by left.
Defined.

(** ** The readiness gate, from its result *)

(** X5.  Every result of the gate comes about in one of three ways.  The
    gate has used up a run [pre] of answers that are retried, polling and
    sleeping 5000 ms once for each, and then either there was no answer left
    and it is waiting, or the next answer was a status with every container
    ready and it returned after that poll, or the next answer was an
    [ApiException] and it raised [ReadinessError] after that poll.  The
    answers after that one are left for later polls, and the manager is not
    written to. *)
Theorem check_pod_readiness_inversion conf pod w o w' t :
  check_pod_readiness conf pod w = (o, w', t) →
  ∃ pre,
    forallb retried pre = true
    ∧ self w' = self w
    ∧ ((o = Waiting ∧ api w = pre ∧ api w' = []
        ∧ t = polls conf pod (length pre))
       ∨ (o = Returned tt
          ∧ (∃ readiness,
               forallb id readiness = true
               ∧ api w = pre ++ PodStatus (Some readiness) :: api w')
          ∧ t = polls conf pod (length pre)
                ++ [ReadPodStatus pod (namespace conf)])
       ∨ (o = Raised ReadinessError
          ∧ api w = pre ++ ApiRaises ApiException :: api w'
          ∧ t = polls conf pod (length pre)
                ++ [ReadPodStatus pod (namespace conf)])).
Proof.
  destruct w as [m answers]. revert o w' t.
  induction answers as [|r rest IH]; intros o w' t H.
  - rewrite check_nil in H. inversion H; subst. exists [].
    split; [done|]. split; [done|]. left. done.
  - destruct (response_cases r) as [Hr|[(l & -> & Hl)| ->]].
    + rewrite (check_cons_retried _ _ _ _ _ Hr) in H.
      destruct (check_pod_readiness _ _ _) as [[o1 w1] t1] eqn:E.
      inversion H; subst.
      destruct (IH _ _ _ eq_refl) as (pre & Hpre & Hs & Hcases).
      exists (r :: pre). cbn [forallb]. rewrite Hr, Hpre.
      split; [done|]. split; [done|]. cbn [api self] in *.
      destruct Hcases as [(-> & -> & -> & ->)|[(-> & (l & Hl & ->) & ->)
                                              |(-> & -> & ->)]].
      * left. done.
      * right; left. split; [done|]. split; [|done]. by exists l.
      * right; right. done.
    + rewrite (check_cons_ready _ _ _ _ _ Hl) in H. inversion H; subst.
      exists []. cbn. split; [done|]. split; [done|]. right; left.
      split; [done|]. split; [|done]. by exists l.
    + rewrite check_cons_api in H. inversion H; subst.
      exists []. cbn. split; [done|]. split; [done|]. right; right. done.
Qed.

Lemma check_pod_readiness_inversion_witness :
  ∃ pre,
    forallb retried pre = true
    ∧ self (boot [ready]) = self (boot [not_ready; ready; ready]).
Proof.
  destruct (check_pod_readiness_inversion (demo_conf 2) "w1"
              (boot [not_ready; ready; ready]) (Returned tt) (boot [ready])
              [ReadPodStatus "w1" "default"; Sleep 5000;
               ReadPodStatus "w1" "default"] eq_refl)
    as (pre & Hpre & Hs & _).
  exists pre. split; assumption.
Defined.

(** X6.  Two edge cases of the poll.  A status whose list of container
    statuses is empty counts as ready: the gate returns after that poll.  A
    status without container statuses does not end the gate: it is polled
    again after the delay, like a pod that is not ready. *)
Theorem check_pod_readiness_no_containers conf pod m rest :
  check_pod_readiness conf pod
    {| self := m; api := PodStatus (Some []) :: rest |}
  = (Returned tt, {| self := m; api := rest |},
     [ReadPodStatus pod (namespace conf)])
  ∧ check_pod_readiness conf pod
      {| self := m; api := PodStatus None :: rest |}
    = match check_pod_readiness conf pod {| self := m; api := rest |} with
      | (o, w, t) =>
          (o, w, ReadPodStatus pod (namespace conf) :: Sleep 5000 :: t)
      end.
Proof.
  split.
  - by apply check_cons_ready.
  - by apply check_cons_retried.
Qed.

(** ** What the effects of a handler are like *)

Section Effects_ok.

Variable conf : EnvConf.
Variable get_host_name : string → string → string.

Lemma effect_ok_ext m m' e :
  citus_master_nodes m' = citus_master_nodes m →
  citus_coordinator_nodes m' = citus_coordinator_nodes m →
  citus_worker_nodes m' = citus_worker_nodes m →
  effect_ok conf m e → effect_ok conf m' e.
Proof.
  intros Hm Hc Hw. unfold effect_ok, enough_workers.
  by rewrite Hm, Hc, Hw.
Qed.

Lemma effect_ok_flag m e :
  effect_ok conf m e → effect_ok conf (with_init_provision true m) e.
Proof. by apply effect_ok_ext. Qed.

Lemma check_effects_ok pod w o w' t m :
  check_pod_readiness conf pod w = (o, w', t) →
  Forall (effect_ok conf m) t.
Proof.
  destruct w as [m0 answers]. revert o w' t.
  induction answers as [|r rest IH]; intros o w' t H.
  - rewrite check_nil in H. by inversion H.
  - destruct (response_cases r) as [Hr|[(l & -> & Hl)| ->]].
    + rewrite (check_cons_retried _ _ _ _ _ Hr) in H.
      destruct (check_pod_readiness _ _ _) as [[o1 w1] t1] eqn:E.
      inversion H; subst. repeat constructor. by eapply IH.
    + rewrite (check_cons_ready _ _ _ _ _ Hl) in H. inversion H; subst.
      by repeat constructor.
    + rewrite check_cons_api in H. inversion H; subst.
      by repeat constructor.
Qed.

Lemma statements_add_node : add_node_sql ∈ statements.
Proof. apply elem_of_cons. by left. Qed.

Lemma statements_set_coordinator : set_coordinator_sql ∈ statements.
Proof. apply elem_of_cons. right. apply elem_of_cons. by left. Qed.

Lemma statements_remove_worker : remove_worker_sql ∈ statements.
Proof. do 2 (apply elem_of_cons; right). apply elem_of_cons. by left. Qed.

Lemma on_masters_ok query x m :
  query ∈ statements →
  Forall (effect_ok conf m) (on_masters conf get_host_name query x m).
Proof.
  intros Hq. unfold on_masters. apply Forall_forall. intros e He.
  apply list_elem_of_fmap in He as (master & -> & Hin).
  apply elem_of_elements in Hin. cbn. auto.
Qed.

Lemma on_coordinators_ok query x m :
  query ∈ statements →
  Forall (effect_ok conf m) (on_coordinators conf get_host_name query x m).
Proof.
  intros Hq. unfold on_coordinators. apply Forall_forall. intros e He.
  apply list_elem_of_fmap in He as (c & -> & Hin).
  apply elem_of_elements in Hin. cbn. auto.
Qed.

Lemma registration_effects_ok x m :
  Forall (effect_ok conf (registered_worker conf x m))
    (registration_effects conf get_host_name x m).
Proof.
  assert (Hjoin : Forall (effect_ok conf (worker_joined x m))
            (registration_effects conf get_host_name x m)).
  { unfold registration_effects. rewrite !Forall_app.
    split; [by apply on_masters_ok, statements_add_node|].
    split; [by apply on_coordinators_ok, statements_add_node|].
    unfold provisioning_of_worker.
    destruct (enough_workers conf (worker_joined x m)) eqn:En; [|done].
    destruct (negb _); repeat constructor; try done.
    cbn. apply elem_of_union. left. by apply elem_of_singleton. }
  unfold registered_worker. destruct (_ && _); [|done].
  eapply Forall_impl; [exact Hjoin|]. intros e. apply effect_ok_flag.
Qed.

Lemma add_worker_effects_ok x w o w' t :
  add_worker conf get_host_name x w = (o, w', t) →
  Forall (effect_ok conf (self w')) t.
Proof.
  intros H. rewrite add_worker_eq in H.
  destruct (check_pod_readiness conf x w) as [[o1 w1] t1] eqn:E.
  pose proof (check_effects_ok _ _ _ _ _ (self w') E) as Hg.
  destruct o1 as [[]|e1|]; inversion H; subst; try done.
  apply Forall_app. split; [done|]. apply registration_effects_ok.
Qed.

Lemma replay_effects_ok xs : ∀ w o w' t,
  Forall (λ x, x ∈ citus_worker_nodes (self w)) xs →
  for_each xs (add_worker conf get_host_name) w = (o, w', t) →
  Forall (effect_ok conf (self w')) t.
Proof.
  induction xs as [|x xs IH]; intros w o w' t Hxs H.
  - by inversion H.
  - inversion Hxs as [|? ? Hx Hxs']; subst.
    rewrite for_each_cons in H.
    destruct (add_worker _ _ x w) as [[o1 w1] t1] eqn:E.
    pose proof (add_worker_effects_ok _ _ _ _ _ E) as H1.
    assert (Hmv := call_moves conf get_host_name AddWorker x w o1 w1 t1 E).
    assert (Hsets : citus_master_nodes (self w1) = citus_master_nodes (self w)
                    ∧ citus_coordinator_nodes (self w1)
                      = citus_coordinator_nodes (self w)
                    ∧ citus_worker_nodes (self w1)
                      = citus_worker_nodes (self w)).
    { inversion Hmv; [done|].
      rewrite (registered_worker_member _ _ _ Hx).
      by destruct (_ && _). }
    destruct Hsets as (Hm1 & Hc1 & Hw1).
    destruct o1 as [[]|e1|]; [|by inversion H; subst..].
    destruct (for_each xs _ w1) as [[o2 w2] t2] eqn:E2.
    inversion H; subst.
    assert (Hxs1 : Forall (λ x, x ∈ citus_worker_nodes (self w1)) xs)
      by (by rewrite Hw1).
    pose proof (replay_self _ _ _ _ _ _ _ Hxs1 E2) as Hself.
    apply Forall_app. split; [|by eapply IH].
    eapply Forall_impl; [exact H1|]. intros e.
    destruct Hself as [-> | (_ & _ & _ & ->)]; [done|apply effect_ok_flag].
Qed.

Lemma call_effects_ok h pod w o w' t :
  call conf get_host_name h pod w = (o, w', t) →
  Forall (effect_ok conf (self w')) t.
Proof.
  destruct h; cbn [call]; intros H.
  - rewrite add_master_eq in H.
    destruct (check_pod_readiness conf pod w) as [[o1 w1] t1] eqn:E.
    pose proof (check_effects_ok _ _ _ _ _ (self w') E) as Hg.
    destruct o1 as [[]|e1|]; [|by inversion H; subst..]. cbv zeta in H.
    destruct (for_each _ _ _) as [[o2 w2] t2] eqn:E2.
    pose proof (f_equal snd H) as Ht.
    pose proof (f_equal (λ r, snd (fst r)) H) as Hw'.
    cbn [fst snd] in Ht, Hw'. subst t w'. clear H.
    assert (Hmem : Forall
              (λ x, x ∈ citus_worker_nodes
                          (self {| self := master_joined pod (self w1);
                                   api := api w1 |}))
              (elements (citus_worker_nodes (master_joined pod (self w1)))))
      by apply elements_members.
    pose proof (replay_self _ _ _ _ _ _ _ Hmem E2) as Hself.
    pose proof (replay_effects_ok _ _ _ _ _ Hmem E2) as Hrep.
    rewrite !Forall_app. split; [done|]. split; [|done].
    assert (Hown : Forall (effect_ok conf (master_joined pod (self w1)))
              (master_effects conf get_host_name pod
                 (master_joined pod (self w1)))).
    { unfold master_effects.
      assert (pod ∈ citus_master_nodes (master_joined pod (self w1)))
        by (cbn; apply elem_of_union; left; by apply elem_of_singleton).
      constructor.
      - cbn [effect_ok]. split; [done|].
        split; [apply statements_set_coordinator|by left].
      - destruct (enough_workers _ _) eqn:En; by repeat constructor. }
    eapply Forall_impl; [exact Hown|]. intros e. cbn [self] in Hself.
    destruct Hself as [-> | (_ & _ & _ & ->)]; [done|apply effect_ok_flag].
  - rewrite add_coordinator_eq in H.
    destruct (check_pod_readiness conf pod w) as [[o1 w1] t1] eqn:E.
    pose proof (check_effects_ok _ _ _ _ _ (self w') E) as Hg.
    destruct o1 as [[]|e1|]; [|by inversion H; subst..]. cbv zeta in H.
    destruct (for_each _ _ _) as [[o2 w2] t2] eqn:E2.
    pose proof (f_equal snd H) as Ht.
    pose proof (f_equal (λ r, snd (fst r)) H) as Hw'.
    cbn [fst snd] in Ht, Hw'. subst t w'. clear H.
    assert (Hmem : Forall
              (λ x, x ∈ citus_worker_nodes
                          (self {| self := coordinator_joined pod (self w1);
                                   api := api w1 |}))
              (elements
                 (citus_worker_nodes (coordinator_joined pod (self w1)))))
      by apply elements_members.
    pose proof (replay_self _ _ _ _ _ _ _ Hmem E2) as Hself.
    pose proof (replay_effects_ok _ _ _ _ _ Hmem E2) as Hrep.
    rewrite !Forall_app. split; [done|]. split; [|done].
    assert (Hown : Forall
              (effect_ok conf (coordinator_joined pod (self w1)))
              (coordinator_effects conf get_host_name pod
                 (coordinator_joined pod (self w1)))).
    { unfold coordinator_effects.
      assert (pod ∈ citus_coordinator_nodes
                      (coordinator_joined pod (self w1)))
        by (cbn; apply elem_of_union; left; by apply elem_of_singleton).
      constructor.
      - cbn [effect_ok]. split; [done|].
        split; [apply statements_set_coordinator|by right].
      - destruct (enough_workers _ _) eqn:En; by repeat constructor. }
    eapply Forall_impl; [exact Hown|]. intros e. cbn [self] in Hself.
    destruct Hself as [-> | (_ & _ & _ & ->)]; [done|apply effect_ok_flag].
  - by eapply add_worker_effects_ok.
  - rewrite remove_master_eq in H. by inversion H.
  - rewrite remove_coordinator_eq in H. by inversion H.
  - rewrite remove_worker_eq in H. inversion H; subst. cbn [self].
    unfold on_masters. apply Forall_forall. intros e He.
    apply list_elem_of_fmap in He as (master & -> & Hin).
    apply elem_of_elements in Hin. cbn.
    split; [done|]. split; [apply statements_remove_worker|by left].
Qed.

End Effects_ok.

Lemma handle_call conf get_host_name ev w o w' t :
  handle conf get_host_name ev w = (o, w', t) →
  (handler_of conf ev = None ∧ w' = w ∧ t = [])
  ∨ ∃ h o1, handler_of conf ev = Some h
      ∧ call conf get_host_name h (name (ev_object ev)) w = (o1, w', t).
Proof.
  rewrite handle_eq. destruct (handler_of conf ev) as [h|].
  - unfold try_except.
    destruct (call _ _ _ _ _) as [[[[]|e|] w1] t1] eqn:E; intros H; right.
    + inversion H; subst. by exists h, (Returned tt).
    + exists h, (Raised e). split; [done|].
      destruct (is_ReadinessError e); inversion H; subst;
        by rewrite ?app_nil_r.
    + inversion H; subst. by exists h, Waiting.
  - intros H. inversion H; subst. by left.
Qed.

Lemma handle_effects_ok conf get_host_name ev w o w' t :
  handle conf get_host_name ev w = (o, w', t) →
  Forall (effect_ok conf (self w')) t.
Proof.
  intros H. apply handle_call in H as [(_ & _ & ->)|(h & o1 & _ & H)];
    [done|by eapply call_effects_ok].
Qed.

(** X7.  Every query issued while an event is processed carries the
    configured port, is one of the three statements of the manager, and is
    addressed to a pod that is in the master set, in the master service, or
    to a pod that is in the coordinator set, in the coordinator service,
    when the event is done.  When no name is in two of the sets then, the
    pod the query is addressed to is not in the worker set. *)
Theorem queries_well_addressed
    conf get_host_name ev w o w' t pod service query host port :
  handle conf get_host_name ev w = (o, w', t) →
  ExecuteQuery pod service query host port ∈ t →
  port = pg_port conf
  ∧ query ∈ statements
  ∧ ((pod ∈ citus_master_nodes (self w') ∧ service = master_service conf)
     ∨ (pod ∈ citus_coordinator_nodes (self w')
        ∧ service = coordinator_service conf))
  ∧ (disjoint_roles (self w') → pod ∉ citus_worker_nodes (self w')).
Proof.
  intros H Hin. apply handle_effects_ok in H.
  rewrite Forall_forall in H. destruct (H _ Hin) as (Hp & Hq & Hto).
  split; [done|]. split; [done|]. split; [done|].
  intros (_ & Hmw & Hcw) Hw.
  destruct Hto as [[Hm _]|[Hc _]].
  - exact (proj1 (elem_of_disjoint _ _) Hmw _ Hm Hw).
  - exact (proj1 (elem_of_disjoint _ _) Hcw _ Hc Hw).
Qed.

(** X8.  A provisioning call is made only when the worker set has reached
    the threshold, and a node is provisioned only as a member of the set of
    its role: both hold in the state the event leaves. *)
Theorem provisioning_needs_enough_workers
    conf get_host_name ev w o w' t e :
  handle conf get_host_name ev w = (o, w', t) →
  e ∈ t → is_provision e = true →
  enough_workers conf (self w') = true
  ∧ match e with
    | ProvisionMaster pod => pod ∈ citus_master_nodes (self w')
    | ProvisionCoordinator pod => pod ∈ citus_coordinator_nodes (self w')
    | ProvisionWorker pod => pod ∈ citus_worker_nodes (self w')
    | _ => True
    end.
Proof.
  intros H Hin Hp. apply handle_effects_ok in H.
  rewrite Forall_forall in H. specialize (H _ Hin).
  destruct e; try discriminate; cbn in H; tauto.
Qed.

Lemma queries_well_addressed_witness :
  (5432 = pg_port (demo_conf 2))%Z
  ∧ add_node_sql ∈ statements
  ∧ ((("m1" : string)
      ∈ citus_master_nodes
          (self (after (demo_conf 2) demo_host
                   [pod_event "ADDED" "master" "m1";
                    pod_event "ADDED" "worker" "w1"] [ready; ready] 2))
      ∧ ("pg-citus-master" : string) = master_service (demo_conf 2))
     ∨ (("m1" : string)
        ∈ citus_coordinator_nodes
            (self (after (demo_conf 2) demo_host
                     [pod_event "ADDED" "master" "m1";
                      pod_event "ADDED" "worker" "w1"] [ready; ready] 2))
        ∧ ("pg-citus-master" : string)
          = coordinator_service (demo_conf 2)))
  ∧ ¬ ("m1" : string)
      ∈ citus_worker_nodes
          (self (after (demo_conf 2) demo_host
                   [pod_event "ADDED" "master" "m1";
                    pod_event "ADDED" "worker" "w1"] [ready; ready] 2)).
Proof.
  destruct (queries_well_addressed (demo_conf 2) demo_host
              (pod_event "ADDED" "worker" "w1")
              (after (demo_conf 2) demo_host
                 [pod_event "ADDED" "master" "m1";
                  pod_event "ADDED" "worker" "w1"] [ready; ready] 1)
              (Returned tt)
              (after (demo_conf 2) demo_host
                 [pod_event "ADDED" "master" "m1";
                  pod_event "ADDED" "worker" "w1"] [ready; ready] 2)
              [ReadPodStatus "w1" "default";
               ExecuteQuery "m1" "pg-citus-master" add_node_sql
                 "w1.pg-citus-worker" 5432]
              "m1" "pg-citus-master" add_node_sql "w1.pg-citus-worker" 5432)
    as (Hp & Hq & Hto & Hw).
  - vm_compute. reflexivity.
  - apply elem_of_cons. right. apply elem_of_cons. by left.
  - split; [exact Hp|]. split; [exact Hq|]. split; [exact Hto|]. apply Hw.
    assert (Hms : citus_master_nodes
                    (self (after (demo_conf 2) demo_host
                             [pod_event "ADDED" "master" "m1";
                              pod_event "ADDED" "worker" "w1"]
                             [ready; ready] 2))
                  = {[ "m1"%string ]}) by (vm_compute; reflexivity).
    assert (Hcs : citus_coordinator_nodes
                    (self (after (demo_conf 2) demo_host
                             [pod_event "ADDED" "master" "m1";
                              pod_event "ADDED" "worker" "w1"]
                             [ready; ready] 2))
                  = ∅) by (vm_compute; reflexivity).
    assert (Hws : citus_worker_nodes
                    (self (after (demo_conf 2) demo_host
                             [pod_event "ADDED" "master" "m1";
                              pod_event "ADDED" "worker" "w1"]
                             [ready; ready] 2))
                  = {[ "w1"%string ]}) by (vm_compute; reflexivity).
    unfold disjoint_roles. rewrite Hms, Hcs, Hws.
    split; [apply disjoint_empty_r|].
    split; [|apply disjoint_empty_l].
    apply disjoint_singleton_l, not_elem_of_singleton. discriminate.
Defined.

Lemma provisioning_needs_enough_workers_witness :
  enough_workers (demo_conf 1)
    (self (after (demo_conf 1) demo_host [pod_event "ADDED" "worker" "w1"]
             [ready] 1))
  = true
  ∧ True.
Proof.
  apply (provisioning_needs_enough_workers (demo_conf 1) demo_host
           (pod_event "ADDED" "worker" "w1") (boot [ready]) (Returned tt)
           (after (demo_conf 1) demo_host [pod_event "ADDED" "worker" "w1"]
              [ready] 1)
           [ReadPodStatus "w1" "default"; ProvisionAllNodes]
           ProvisionAllNodes).
  - vm_compute. reflexivity.
  - apply elem_of_cons. right. apply elem_of_cons. by left.
  - reflexivity.
Defined.

(** ** The one bulk provisioning *)

Section Provision_all.

Variable conf : EnvConf.
Variable get_host_name : string → string → string.

Lemma gate_no_provision_all t :
  forallb is_gate t = true → filter is_provision_all t = [].
Proof.
  intros H. rewrite forallb_forall in H.
  apply filter_drop, forallb_forall. intros e He.
  specialize (H e He). by destruct e.
Qed.

Lemma on_masters_no_provision_all query x m :
  filter is_provision_all (on_masters conf get_host_name query x m) = [].
Proof. unfold on_masters. by induction (elements _). Qed.

Lemma on_coordinators_no_provision_all query x m :
  filter is_provision_all (on_coordinators conf get_host_name query x m)
  = [].
Proof. unfold on_coordinators. by induction (elements _). Qed.

Lemma own_effects_no_provision_all h pod m :
  filter is_provision_all (own_effects conf get_host_name h pod m) = [].
Proof.
  destruct h; try done; cbn [own_effects];
    unfold master_effects, coordinator_effects;
    by destruct (enough_workers conf m).
Qed.

Lemma add_worker_provision_all x w o w' t :
  add_worker conf get_host_name x w = (o, w', t) →
  length (filter is_provision_all t)
  = Nat.b2n (negb (init_provision (self w)) && init_provision (self w')).
Proof.
  intros H. rewrite add_worker_eq in H.
  destruct (check_pod_readiness conf x w) as [[o1 w1] t1] eqn:E.
  destruct (check_frame _ _ _ _ _ _ E) as (Hs & Hg & _ & _).
  apply gate_no_provision_all in Hg.
  destruct o1 as [[]|e1|]; inversion H; subst; cbn [self];
    rewrite ?filter_app, ?Hg, ?Hs;
    [|by destruct (init_provision (self w))..].
  unfold registration_effects. rewrite !filter_app.
  rewrite on_masters_no_provision_all, on_coordinators_no_provision_all.
  unfold registered_worker, provisioning_of_worker. cbn [app].
  change (init_provision (worker_joined x (self w)))
    with (init_provision (self w)).
  destruct (enough_workers conf (worker_joined x (self w)));
    destruct (init_provision (self w)) eqn:Ef; cbn; by rewrite ?Ef.
Qed.

Lemma add_worker_flag_mono x w o w' t :
  add_worker conf get_host_name x w = (o, w', t) →
  init_provision (self w) = true → init_provision (self w') = true.
Proof.
  intros H. eapply moves_flag_mono.
  exact (call_moves conf get_host_name AddWorker x w o w' t H).
Qed.

Lemma replay_provision_all xs : ∀ w o w' t,
  for_each xs (add_worker conf get_host_name) w = (o, w', t) →
  length (filter is_provision_all t)
  = Nat.b2n (negb (init_provision (self w)) && init_provision (self w'))
  ∧ (init_provision (self w) = true → init_provision (self w') = true).
Proof.
  induction xs as [|x xs IH]; intros w o w' t H.
  - inversion H; subst. split; [|done]. by destruct (init_provision _).
  - rewrite for_each_cons in H.
    destruct (add_worker _ _ x w) as [[o1 w1] t1] eqn:E.
    pose proof (add_worker_provision_all _ _ _ _ _ E) as H1.
    pose proof (add_worker_flag_mono _ _ _ _ _ E) as M1.
    destruct o1 as [[]|e1|]; [|by inversion H; subst..].
    destruct (for_each xs _ w1) as [[o2 w2] t2] eqn:E2.
    inversion H; subst. destruct (IH _ _ _ _ E2) as [H2 M2].
    rewrite filter_app, length_app, H1, H2. split; [|by auto].
    destruct (init_provision (self w)), (init_provision (self w1)),
      (init_provision (self w')); cbn in *; auto; try discriminate;
      try (by specialize (M1 eq_refl)); by specialize (M2 eq_refl).
Qed.

Lemma call_provision_all h pod w o w' t :
  call conf get_host_name h pod w = (o, w', t) →
  length (filter is_provision_all t)
  = Nat.b2n (negb (init_provision (self w)) && init_provision (self w')).
Proof.
  assert (Hadd : h = AddMaster ∨ h = AddCoordinator →
            call conf get_host_name h pod w = (o, w', t) →
            length (filter is_provision_all t)
            = Nat.b2n (negb (init_provision (self w))
                       && init_provision (self w'))).
  { intros Hh H. rewrite (call_add_eq _ _ _ _ _ Hh) in H.
    destruct (check_pod_readiness conf pod w) as [[o1 w1] t1] eqn:E.
    destruct (check_frame _ _ _ _ _ _ E) as (Hs & Hg & _ & _).
    apply gate_no_provision_all in Hg.
    destruct o1 as [[]|e1|];
      [|inversion H; subst; rewrite Hg, Hs;
        by destruct (init_provision (self w))..].
    cbv zeta in H. destruct (for_each _ _ _) as [[o2 w2] t2] eqn:E2.
    pose proof (f_equal snd H) as Ht.
    pose proof (f_equal (λ r, snd (fst r)) H) as Hw'.
    cbn [fst snd] in Ht, Hw'. subst t w'.
    apply replay_provision_all in E2 as [E2 _]. cbn [self] in E2.
    rewrite !filter_app, Hg, own_effects_no_provision_all. cbn [app].
    rewrite E2, Hs. by destruct Hh as [-> | ->]. }
  destruct h; cbn [call]; intros H; try (apply Hadd; by auto).
  - by eapply add_worker_provision_all.
  - rewrite remove_master_eq in H. inversion H; subst. cbn.
    by destruct (init_provision _).
  - rewrite remove_coordinator_eq in H. inversion H; subst. cbn.
    by destruct (init_provision _).
  - rewrite remove_worker_eq in H. inversion H; subst. cbn [self].
    rewrite on_masters_no_provision_all. cbn.
    by destruct (init_provision _).
Qed.

Lemma handle_provision_all ev w o w' t :
  handle conf get_host_name ev w = (o, w', t) →
  length (filter is_provision_all t)
  = Nat.b2n (negb (init_provision (self w)) && init_provision (self w'))
  ∧ (init_provision (self w) = true → init_provision (self w') = true).
Proof.
  intros H. apply handle_call in H as [(_ & -> & ->)|(h & o1 & _ & H)].
  - split; [|done]. by destruct (init_provision _).
  - split; [by eapply call_provision_all|].
    eapply moves_flag_mono, call_moves, H.
Qed.

Lemma run_provision_all evs : ∀ w o w' t,
  run conf get_host_name evs w = (o, w', t) →
  length (filter is_provision_all t)
  = Nat.b2n (negb (init_provision (self w)) && init_provision (self w'))
  ∧ (init_provision (self w) = true → init_provision (self w') = true).
Proof.
  unfold run.
  induction evs as [|ev evs IH]; intros w o w' t H.
  - inversion H; subst. split; [|done]. by destruct (init_provision _).
  - rewrite for_each_cons in H.
    destruct (handle _ _ ev w) as [[o1 w1] t1] eqn:E.
    destruct (handle_provision_all _ _ _ _ _ E) as [H1 M1].
    destruct o1 as [[]|e1|]; [|by inversion H; subst..].
    destruct (for_each evs _ w1) as [[o2 w2] t2] eqn:E2.
    inversion H; subst. destruct (IH _ _ _ _ E2) as [H2 M2].
    rewrite filter_app, length_app, H1, H2. split; [|by auto].
    destruct (init_provision (self w)), (init_provision (self w1)),
      (init_provision (self w')); cbn in *; auto; try discriminate;
      try (by specialize (M1 eq_refl)); by specialize (M2 eq_refl).
Qed.

End Provision_all.

(** X9.  In a run from the start of the process [provision_all_nodes] is
    called once if the flag is set at the end and not at all otherwise;
    from any state, it is called once if the run sets the flag and not at
    all otherwise. *)
Theorem provision_all_once conf get_host_name evs answers w :
  length (filter is_provision_all
            (effects_of (run conf get_host_name evs (boot answers))))
  = Nat.b2n (flag (world_of (run conf get_host_name evs (boot answers))))
  ∧ length (filter is_provision_all
              (effects_of (run conf get_host_name evs w)))
    = Nat.b2n (negb (flag w)
               && flag (world_of (run conf get_host_name evs w))).
Proof.
  split.
  - destruct (run conf get_host_name evs (boot answers)) as [[o w'] t] eqn:E.
    unfold effects_of, world_of, flag. cbn [fst snd].
    by destruct (run_provision_all _ _ _ _ _ _ _ E) as [-> _].
  - destruct (run conf get_host_name evs w) as [[o w'] t] eqn:E.
    unfold effects_of, world_of, flag. cbn [fst snd].
    by destruct (run_provision_all _ _ _ _ _ _ _ E) as [-> _].
Qed.

(** ** No member without a poll *)

Section Polled.

Variable conf : EnvConf.
Variable get_host_name : string → string → string.

Lemma check_returned_polled pod w w' t :
  check_pod_readiness conf pod w = (Returned tt, w', t) →
  ReadPodStatus pod (namespace conf) ∈ t.
Proof.
  destruct w as [m answers]. revert w' t.
  induction answers as [|r rest IH]; intros w' t H.
  - by rewrite check_nil in H.
  - destruct (response_cases r) as [Hr|[(l & -> & Hl)| ->]].
    + rewrite (check_cons_retried _ _ _ _ _ Hr) in H.
      destruct (check_pod_readiness _ _ _) as [[o1 w1] t1] eqn:E.
      inversion H; subst. apply elem_of_cons. by left.
    + rewrite (check_cons_ready _ _ _ _ _ Hl) in H. inversion H; subst.
      apply elem_of_cons. by left.
    + by rewrite check_cons_api in H.
Qed.

Lemma moves_members h pod m m' n :
  moves conf h pod m m' → n ∈ members m' → n ∈ members m ∨ n = pod.
Proof.
  intros Hm. unfold members.
  inversion Hm; subst; unfold registered_worker;
    try destruct (_ && _); cbn;
    rewrite ?elem_of_union, ?elem_of_difference, ?elem_of_singleton;
    tauto.
Qed.

(** A call that changes the manager has polled its pod. *)
Lemma call_polled h pod w o w' t :
  is_add h = true →
  call conf get_host_name h pod w = (o, w', t) →
  self w' = self w ∨ ReadPodStatus pod (namespace conf) ∈ t.
Proof.
  intros Hadd H.
  destruct h; try discriminate; cbn [call] in H.
  - rewrite add_master_eq in H.
    destruct (check_pod_readiness conf pod w) as [[o1 w1] t1] eqn:E.
    destruct (check_frame _ _ _ _ _ _ E) as (Hs & _ & _ & _).
    destruct o1 as [[]|e1|]; [|inversion H; subst; by left..].
    apply check_returned_polled in E. cbv zeta in H.
    destruct (for_each _ _ _) as [[o2 w2] t2].
    pose proof (f_equal snd H) as Ht. cbn [snd] in Ht. subst t.
    right. apply elem_of_app. by left.
  - rewrite add_coordinator_eq in H.
    destruct (check_pod_readiness conf pod w) as [[o1 w1] t1] eqn:E.
    destruct (check_frame _ _ _ _ _ _ E) as (Hs & _ & _ & _).
    destruct o1 as [[]|e1|]; [|inversion H; subst; by left..].
    apply check_returned_polled in E. cbv zeta in H.
    destruct (for_each _ _ _) as [[o2 w2] t2].
    pose proof (f_equal snd H) as Ht. cbn [snd] in Ht. subst t.
    right. apply elem_of_app. by left.
  - rewrite add_worker_eq in H.
    destruct (check_pod_readiness conf pod w) as [[o1 w1] t1] eqn:E.
    destruct (check_frame _ _ _ _ _ _ E) as (Hs & _ & _ & _).
    destruct o1 as [[]|e1|]; [|inversion H; subst; by left..].
    apply check_returned_polled in E. inversion H; subst.
    right. apply elem_of_app. by left.
Qed.

Lemma handle_members ev w o w' t n :
  handle conf get_host_name ev w = (o, w', t) →
  n ∈ members (self w') →
  n ∈ members (self w) ∨ ReadPodStatus n (namespace conf) ∈ t.
Proof.
  intros H Hn. apply handle_call in H as [(_ & -> & _)|(h & o1 & _ & H)];
    [by left|].
  pose proof (call_moves _ _ _ _ _ _ _ _ H) as Hm.
  destruct (is_add h) eqn:Hadd.
  - destruct (call_polled _ _ _ _ _ _ Hadd H) as [Hs|Hp].
    + left. by rewrite <- Hs.
    + destruct (moves_members _ _ _ _ _ Hm Hn) as [?| ->]; by auto.
  - left. unfold members in *.
    destruct h; try discriminate; inversion Hm; subst;
      match goal with E : _ = self w' |- _ => rewrite <- E in Hn end;
      cbn in Hn; revert Hn;
      rewrite ?elem_of_union, ?elem_of_difference; tauto.
Qed.

Lemma run_members evs : ∀ w o w' t n,
  run conf get_host_name evs w = (o, w', t) →
  n ∈ members (self w') →
  n ∈ members (self w) ∨ ReadPodStatus n (namespace conf) ∈ t.
Proof.
  unfold run.
  induction evs as [|ev evs IH]; intros w o w' t n H Hn.
  - inversion H; subst. by left.
  - rewrite for_each_cons in H.
    destruct (handle _ _ ev w) as [[o1 w1] t1] eqn:E.
    destruct o1 as [[]|e1|];
      [|inversion H; subst; by eapply handle_members..].
    destruct (for_each evs _ w1) as [[o2 w2] t2] eqn:E2.
    inversion H; subst.
    destruct (IH _ _ _ _ _ E2 Hn) as [Hn1|Hp].
    + destruct (handle_members _ _ _ _ _ _ E Hn1) as [?|Hp]; [by left|].
      right. apply elem_of_app. by left.
    + right. apply elem_of_app. by right.
Qed.

End Polled.

(** X10.  After any run from the start of the process, every name in one
    of the three sets has been polled by the readiness gate during the run:
    no pod joins a set without its status having been read. *)
Theorem members_were_polled conf get_host_name evs answers n :
  n ∈ members (self (world_of (run conf get_host_name evs (boot answers)))) →
  ReadPodStatus n (namespace conf)
  ∈ effects_of (run conf get_host_name evs (boot answers)).
Proof.
  destruct (run conf get_host_name evs (boot answers)) as [[o w'] t] eqn:E.
  unfold effects_of, world_of. cbn [fst snd]. intros Hn.
  destruct (run_members _ _ _ _ _ _ _ _ E Hn) as [Hin|?]; [|done].
  unfold members in Hin. cbn in Hin.
  rewrite !elem_of_union in Hin.
  destruct Hin as [[Hin|Hin]|Hin]; by apply not_elem_of_empty in Hin.
Qed.

Lemma members_were_polled_witness :
  ReadPodStatus "m1" (namespace (demo_conf 2))
  ∈ effects_of
      (run (demo_conf 2) demo_host
         [pod_event "ADDED" "worker" "w1"; pod_event "ADDED" "master" "m1"]
         (boot [ready; ready; ready])).
Proof.
  apply (members_were_polled (demo_conf 2) demo_host
           [pod_event "ADDED" "worker" "w1"; pod_event "ADDED" "master" "m1"]
           [ready; ready; ready] "m1").
  vm_compute. reflexivity.
Defined.

(** ** DELETED events of masters and coordinators *)

Lemma with_master_nodes_id m s :
  s = citus_master_nodes m → with_master_nodes s m = m.
Proof. intros ->. by destruct m. Qed.

Lemma with_coordinator_nodes_id m s :
  s = citus_coordinator_nodes m → with_coordinator_nodes s m = m.
Proof. intros ->. by destruct m. Qed.

(** X11.  A DELETED event of a coordinator returns normally without any
    effect: no query, no provisioning call, no poll.  It removes the pod
    from the coordinator set and changes nothing else. *)
Theorem remove_coordinator_frame conf get_host_name ev w :
  handler_of conf ev = Some RemoveCoordinator →
  ∃ w',
    handle conf get_host_name ev w = (Returned tt, w', [])
    ∧ citus_coordinator_nodes (self w')
      = citus_coordinator_nodes (self w) ∖ {[name (ev_object ev)]}
    ∧ citus_master_nodes (self w') = citus_master_nodes (self w)
    ∧ citus_worker_nodes (self w') = citus_worker_nodes (self w)
    ∧ init_provision (self w') = init_provision (self w)
    ∧ api w' = api w.
Proof.
  intros Hh. rewrite handle_eq, Hh. cbn [call].
  eexists. split; [reflexivity|]. cbn. repeat split.
Qed.

Lemma remove_coordinator_frame_witness :
  ∃ w',
    handle (demo_conf 2) demo_host (pod_event "DELETED" "coordinator" "c1")
      (after (demo_conf 2) demo_host [pod_event "ADDED" "coordinator" "c1"]
         [ready] 1)
    = (Returned tt, w', [])
    ∧ elements (citus_coordinator_nodes (self w')) = [].
Proof.
  destruct (remove_coordinator_frame (demo_conf 2) demo_host
              (pod_event "DELETED" "coordinator" "c1")
              (after (demo_conf 2) demo_host
                 [pod_event "ADDED" "coordinator" "c1"] [ready] 1)
              eq_refl)
    as (w' & Hrun & Hc & _).
  exists w'. split; [exact Hrun|]. rewrite Hc. vm_compute. reflexivity.
Defined.

(** X12.  A DELETED event of a master or of a coordinator whose name is not
    in the set of its role changes nothing at all: the world is what it was
    and nothing is emitted. *)
Theorem remove_absent_master_or_coordinator conf get_host_name ev h w :
  handler_of conf ev = Some h →
  h = RemoveMaster ∨ h = RemoveCoordinator →
  name (ev_object ev) ∉ nodes_of h (self w) →
  handle conf get_host_name ev w = (Returned tt, w, []).
Proof.
  intros Hh Hrm Hout. rewrite handle_eq, Hh.
  destruct Hrm as [-> | ->]; cbn [call nodes_of] in *; unfold try_except.
  - rewrite remove_master_eq, with_master_nodes_id; [by destruct w|].
    by apply difference_disjoint_L, disjoint_singleton_r.
  - rewrite remove_coordinator_eq, with_coordinator_nodes_id;
      [by destruct w|].
    by apply difference_disjoint_L, disjoint_singleton_r.
Qed.

Lemma remove_absent_master_or_coordinator_witness :
  handle (demo_conf 2) demo_host (pod_event "DELETED" "master" "m7")
    (boot [ready])
  = (Returned tt, boot [ready], []).
Proof.
  apply (remove_absent_master_or_coordinator (demo_conf 2) demo_host
           (pod_event "DELETED" "master" "m7") RemoveMaster (boot [ready])).
  - reflexivity.
  - by left.
  - apply not_elem_of_empty.
Defined.

(** ** ADDED events *)

Section Added.

Variable conf : EnvConf.
Variable get_host_name : string → string → string.

(** X13.  When the gate of the pod of an ADDED handler does not return
    (it raises or is still waiting), the handler ends as the gate did and
    does nothing else: the manager is what it was and no query and no
    provisioning call has been made.  This holds for masters, coordinators
    and workers alike. *)
Theorem gate_closed_nothing_happens h pod w o w1 t1 :
  is_add h = true →
  check_pod_readiness conf pod w = (o, w1, t1) →
  o ≠ Returned tt →
  call conf get_host_name h pod w = (o, w1, t1)
  ∧ self w1 = self w
  ∧ filter is_call t1 = [].
Proof.
  intros Hadd Hgate Ho.
  destruct (check_frame _ _ _ _ _ _ Hgate) as (Hs & Hg & _ & _).
  destruct (gate_effects_only _ Hg) as (_ & _ & _ & Hc).
  split; [|by split].
  destruct h; try discriminate; cbn [call];
    rewrite ?add_master_eq, ?add_coordinator_eq, ?add_worker_eq, Hgate;
    by destruct o as [[]|e|].
Qed.

(** X14.  An ADDED handler that returns has put the pod in the set of its
    role and has removed no name from any set: the names in the three sets
    are those of before and the pod. *)
Theorem added_pod_is_member h pod w w' t :
  is_add h = true →
  call conf get_host_name h pod w = (Returned tt, w', t) →
  pod ∈ nodes_of h (self w')
  ∧ members (self w') = {[pod]} ∪ members (self w).
Proof.
  intros Hadd H.
  destruct h; try discriminate; cbn [call] in H.
  - rewrite add_master_eq in H.
    destruct (check_pod_readiness conf pod w) as [[o1 w1] t1] eqn:E.
    destruct (check_frame _ _ _ _ _ _ E) as (Hs & _ & _ & _).
    destruct o1 as [[]|e1|]; [|done..]. cbv zeta in H.
    destruct (for_each _ _ _) as [[o2 w2] t2] eqn:E2.
    pose proof (f_equal (λ r, snd (fst r)) H) as Hw'.
    cbn [fst snd] in Hw'. subst w2.
    apply replay_self in E2; [|apply elements_members].
    cbn [self] in E2. rewrite Hs in E2. unfold members.
    destruct E2 as [-> | (_ & _ & _ & ->)]; cbn; split;
      try (apply elem_of_union; left; by apply elem_of_singleton);
      by rewrite !(assoc_L (∪)).
  - rewrite add_coordinator_eq in H.
    destruct (check_pod_readiness conf pod w) as [[o1 w1] t1] eqn:E.
    destruct (check_frame _ _ _ _ _ _ E) as (Hs & _ & _ & _).
    destruct o1 as [[]|e1|]; [|done..]. cbv zeta in H.
    destruct (for_each _ _ _) as [[o2 w2] t2] eqn:E2.
    pose proof (f_equal (λ r, snd (fst r)) H) as Hw'.
    cbn [fst snd] in Hw'. subst w2.
    apply replay_self in E2; [|apply elements_members].
    cbn [self] in E2. rewrite Hs in E2. unfold members.
    destruct E2 as [-> | (_ & _ & _ & ->)]; cbn; split;
      try (apply elem_of_union; left; by apply elem_of_singleton);
      rewrite !(assoc_L (∪));
      by rewrite (comm_L (∪) (citus_master_nodes _) {[pod]}).
  - rewrite add_worker_eq in H.
    destruct (check_pod_readiness conf pod w) as [[o1 w1] t1] eqn:E.
    destruct (check_frame _ _ _ _ _ _ E) as (Hs & _ & _ & _).
    destruct o1 as [[]|e1|]; [|done..]. inversion H; subst.
    cbn [self]. rewrite Hs. unfold members, registered_worker.
    destruct (_ && _); cbn; split;
      try (apply elem_of_union; left; by apply elem_of_singleton);
      rewrite !(assoc_L (∪));
      rewrite (comm_L (∪) _ {[pod]});
      by rewrite !(assoc_L (∪)).
Qed.

End Added.

(** A master whose pod cannot be found: nothing is registered. *)
Lemma gate_closed_nothing_happens_witness :
  call (demo_conf 2) demo_host AddMaster "m1"
    (boot [not_ready; ApiRaises ApiException; ready])
  = (Raised ReadinessError, boot [ready],
     [ReadPodStatus "m1" "default"; Sleep 5000;
      ReadPodStatus "m1" "default"])
  ∧ self (boot [ready])
    = self (boot [not_ready; ApiRaises ApiException; ready])
  ∧ filter is_call
      [ReadPodStatus "m1" "default"; Sleep 5000;
       ReadPodStatus "m1" "default"]
    = [].
Proof.
  apply (gate_closed_nothing_happens (demo_conf 2) demo_host AddMaster "m1"
           (boot [not_ready; ApiRaises ApiException; ready])).
  - reflexivity.
  - reflexivity.
  - discriminate.
Defined.

Lemma added_pod_is_member_witness :
  ("c1" : string)
  ∈ nodes_of AddCoordinator
      (self (after (demo_conf 2) demo_host
               [pod_event "ADDED" "worker" "w1";
                pod_event "ADDED" "coordinator" "c1"]
               [ready; ready; ready] 2)).
Proof.
  apply (added_pod_is_member (demo_conf 2) demo_host AddCoordinator "c1"
           (after (demo_conf 2) demo_host
              [pod_event "ADDED" "worker" "w1";
               pod_event "ADDED" "coordinator" "c1"]
              [ready; ready; ready] 1)
           (after (demo_conf 2) demo_host
              [pod_event "ADDED" "worker" "w1";
               pod_event "ADDED" "coordinator" "c1"]
              [ready; ready; ready] 2)
           [ReadPodStatus "c1" "default";
            ExecuteQuery "c1" "pg-citus-coordinator" set_coordinator_sql
              "c1.pg-citus-coordinator" 5432;
            ReadPodStatus "w1" "default";
            ExecuteQuery "c1" "pg-citus-coordinator" add_node_sql
              "w1.pg-citus-worker" 5432]).
  - reflexivity.
  - vm_compute. reflexivity.
Defined.

(** ** Workers that come, come again, and go *)

Section Workers.

Variable conf : EnvConf.
Variable get_host_name : string → string → string.

(** X15.  The ADDED handler of a worker whose gate returns: the pod joins
    the worker set, the other sets stay; the calls are, in this order, one
    add-node query for every master, one for every coordinator, and, if the
    worker set with the new pod has reached the threshold, one provisioning
    call: of all nodes if the flag was unset, which sets it, of this worker
    otherwise. *)
Theorem worker_added pod w w1 t1 :
  check_pod_readiness conf pod w = (Returned tt, w1, t1) →
  ∃ w' t,
    add_worker conf get_host_name pod w = (Returned tt, w', t)
    ∧ citus_worker_nodes (self w') = {[pod]} ∪ citus_worker_nodes (self w)
    ∧ citus_master_nodes (self w') = citus_master_nodes (self w)
    ∧ citus_coordinator_nodes (self w') = citus_coordinator_nodes (self w)
    ∧ init_provision (self w')
      = init_provision (self w) || enough_workers conf (self w')
    ∧ api w' = api w1
    ∧ filter is_call t
      = map (λ master,
               ExecuteQuery master (master_service conf) add_node_sql
                 (get_host_name pod (worker_service conf)) (pg_port conf))
            (elements (citus_master_nodes (self w)))
        ++ map (λ coordinator,
                  ExecuteQuery coordinator (coordinator_service conf)
                    add_node_sql
                    (get_host_name pod (worker_service conf)) (pg_port conf))
               (elements (citus_coordinator_nodes (self w)))
        ++ (if enough_workers conf (self w')
            then [if init_provision (self w)
                  then ProvisionWorker pod else ProvisionAllNodes]
            else []).
Proof.
  intros Hgate. rewrite add_worker_eq, Hgate.
  destruct (check_frame _ _ _ _ _ _ Hgate) as (Hs & Hg & _ & _).
  destruct (gate_effects_only _ Hg) as (_ & _ & _ & Hc).
  eexists _, _. split; [reflexivity|]. cbn [self api]. rewrite Hs.
  assert (Hen : enough_workers conf (registered_worker conf pod (self w))
                = enough_workers conf (worker_joined pod (self w))).
  { unfold registered_worker. by destruct (_ && _). }
  rewrite Hen.
  split; [unfold registered_worker; by destruct (_ && _)|].
  split; [unfold registered_worker; by destruct (_ && _)|].
  split; [unfold registered_worker; by destruct (_ && _)|].
  split.
  { unfold registered_worker.
    change (init_provision (worker_joined pod (self w)))
      with (init_provision (self w)).
    destruct (enough_workers conf (worker_joined pod (self w)));
      destruct (init_provision (self w)) eqn:Ef; cbn; by rewrite ?Ef. }
  split; [done|].
  rewrite filter_app, Hc, registration_effects_calls. cbn [app].
  unfold registration_effects, on_masters, on_coordinators,
    provisioning_of_worker.
  change (init_provision (worker_joined pod (self w)))
    with (init_provision (self w)).
  change (citus_master_nodes (worker_joined pod (self w)))
    with (citus_master_nodes (self w)).
  change (citus_coordinator_nodes (worker_joined pod (self w)))
    with (citus_coordinator_nodes (self w)).
  do 2 f_equal.
  destruct (enough_workers conf (worker_joined pod (self w))); [|done].
  by destruct (init_provision (self w)).
Qed.

(** X16.  An ADDED event for a worker that is in the worker set already
    (its gate returning) leaves the three sets as they are and issues the
    add-node queries again, one for every master and one for every
    coordinator. *)
Theorem worker_added_again pod w w' t :
  pod ∈ citus_worker_nodes (self w) →
  add_worker conf get_host_name pod w = (Returned tt, w', t) →
  citus_worker_nodes (self w') = citus_worker_nodes (self w)
  ∧ citus_master_nodes (self w') = citus_master_nodes (self w)
  ∧ citus_coordinator_nodes (self w') = citus_coordinator_nodes (self w)
  ∧ filter is_add_node t = add_node_queries conf get_host_name pod (self w)
  ∧ length (filter is_add_node t)
    = size (citus_master_nodes (self w))
      + size (citus_coordinator_nodes (self w)).
Proof.
  intros Hin H. rewrite add_worker_eq in H.
  destruct (check_pod_readiness conf pod w) as [[o1 w1] t1] eqn:E.
  destruct (check_frame _ _ _ _ _ _ E) as (Hs & Hg & _ & _).
  destruct (gate_effects_only _ Hg) as (_ & _ & Hga & _).
  destruct o1 as [[]|e1|]; [|done..]. inversion H; subst.
  cbn [self]. rewrite Hs, (registered_worker_member _ _ _ Hin).
  split; [by destruct (_ && _)|].
  split; [by destruct (_ && _)|].
  split; [by destruct (_ && _)|].
  assert (Ht : filter is_add_node
                 (t1 ++ registration_effects conf get_host_name pod (self w))
               = add_node_queries conf get_host_name pod (self w)).
  { rewrite filter_app, Hga, registration_effects_add_node.
    by rewrite (worker_joined_member _ _ Hin). }
  split; [done|]. rewrite Ht.
  unfold add_node_queries, on_masters, on_coordinators.
  by rewrite length_app, !length_map.
Qed.

(** X17.  A worker that was not in the worker set, is added (its gate
    returning) and is then deleted: the three sets are what they were
    before the two events; the flag is not reset by the deletion, so it is
    set afterwards if it was set before or if the worker set reached the
    threshold with this worker in it. *)
Theorem worker_added_then_deleted pod w w1 t1 :
  pod ∉ citus_worker_nodes (self w) →
  add_worker conf get_host_name pod w = (Returned tt, w1, t1) →
  ∃ w2 t2,
    remove_worker conf get_host_name pod w1 = (Returned tt, w2, t2)
    ∧ citus_worker_nodes (self w2) = citus_worker_nodes (self w)
    ∧ citus_master_nodes (self w2) = citus_master_nodes (self w)
    ∧ citus_coordinator_nodes (self w2) = citus_coordinator_nodes (self w)
    ∧ init_provision (self w2) = init_provision (self w1)
    ∧ init_provision (self w2)
      = init_provision (self w)
        || enough_workers conf (worker_joined pod (self w)).
Proof.
  intros Hout H. rewrite add_worker_eq in H.
  destruct (check_pod_readiness conf pod w) as [[o1 w0] t0] eqn:E.
  destruct (check_frame _ _ _ _ _ _ E) as (Hs & _ & _ & _).
  destruct o1 as [[]|e1|]; [|done..]. inversion H; subst.
  rewrite remove_worker_eq. eexists _, _. split; [reflexivity|].
  cbn [self]. rewrite Hs. unfold registered_worker.
  change (init_provision (worker_joined pod (self w)))
    with (init_provision (self w)).
  assert (Hback : ({[pod]} ∪ citus_worker_nodes (self w)) ∖ {[pod]}
                  = citus_worker_nodes (self w)).
  { rewrite difference_union_distr_l_L, difference_diag_L.
    rewrite (left_id_L ∅ (∪)).
    by apply difference_disjoint_L, disjoint_singleton_r. }
  destruct (enough_workers conf (worker_joined pod (self w)));
    destruct (init_provision (self w)) eqn:Ef; cbn; rewrite ?Ef.
  all: by repeat split.
Qed.

(** X18.  While the pod of an ADDED event is not ready, the loop does not
    get past that event: with answers that are all retried the run is
    waiting in the gate of the first event, the manager is unchanged, the
    only effects are the polls of that pod and the sleeps, and none of the
    later events has been looked at. *)
Theorem not_ready_pod_blocks_the_loop ev evs h m answers :
  handler_of conf ev = Some h →
  is_add h = true →
  forallb retried answers = true →
  run conf get_host_name (ev :: evs) {| self := m; api := answers |}
  = (Waiting, {| self := m; api := [] |},
     polls conf (name (ev_object ev)) (length answers)).
Proof.
  intros Hh Hadd Hretried.
  assert (Hgate : check_pod_readiness conf (name (ev_object ev))
                    {| self := m; api := answers |}
                  = (Waiting, {| self := m; api := [] |},
                     polls conf (name (ev_object ev)) (length answers))).
  { rewrite <- (app_nil_r answers) at 1.
    rewrite (check_retried_prefix _ _ _ _ _ Hretried), check_nil.
    by rewrite app_nil_r. }
  unfold run. rewrite for_each_cons, handle_eq, Hh. unfold try_except.
  destruct h; try discriminate; cbn [call];
    rewrite ?add_master_eq, ?add_coordinator_eq, ?add_worker_eq, Hgate;
    reflexivity.
Qed.

End Workers.

(** The second worker reaches the threshold 2 with a master known: one
    add-node query on the master, then the provisioning of all nodes. *)
Lemma worker_added_witness :
  ∃ w' t,
    add_worker (demo_conf 2) demo_host "w2"
      (after (demo_conf 2) demo_host
         [pod_event "ADDED" "master" "m1"; pod_event "ADDED" "worker" "w1"]
         [ready; ready; ready] 2)
    = (Returned tt, w', t)
    ∧ filter is_call t
      = [ExecuteQuery "m1" "pg-citus-master" add_node_sql
           "w2.pg-citus-worker" 5432;
         ProvisionAllNodes].
Proof.
  destruct (worker_added (demo_conf 2) demo_host "w2"
              (after (demo_conf 2) demo_host
                 [pod_event "ADDED" "master" "m1";
                  pod_event "ADDED" "worker" "w1"]
                 [ready; ready; ready] 2)
              (after (demo_conf 2) demo_host
                 [pod_event "ADDED" "master" "m1";
                  pod_event "ADDED" "worker" "w1"]
                 [ready; ready] 2)
              [ReadPodStatus "w2" "default"] eq_refl)
    as (w' & t & Hrun & Hw & _ & _ & _ & _ & Ht).
  exists w', t. split; [exact Hrun|]. rewrite Ht.
  unfold enough_workers. rewrite Hw. vm_compute. reflexivity.
Defined.

Lemma worker_added_again_witness :
  length
    (filter is_add_node
       (effects_of
          (add_worker (demo_conf 2) demo_host "w1"
             (after (demo_conf 2) demo_host
                [pod_event "ADDED" "master" "m1";
                 pod_event "ADDED" "worker" "w1"]
                [ready; ready; ready] 2))))
  = size (citus_master_nodes
            (self (after (demo_conf 2) demo_host
                     [pod_event "ADDED" "master" "m1";
                      pod_event "ADDED" "worker" "w1"]
                     [ready; ready; ready] 2)))
    + size (citus_coordinator_nodes
              (self (after (demo_conf 2) demo_host
                       [pod_event "ADDED" "master" "m1";
                        pod_event "ADDED" "worker" "w1"]
                       [ready; ready; ready] 2))).
Proof.
  apply (worker_added_again (demo_conf 2) demo_host "w1"
           (after (demo_conf 2) demo_host
              [pod_event "ADDED" "master" "m1";
               pod_event "ADDED" "worker" "w1"]
              [ready; ready; ready] 2)
           (world_of
              (add_worker (demo_conf 2) demo_host "w1"
                 (after (demo_conf 2) demo_host
                    [pod_event "ADDED" "master" "m1";
                     pod_event "ADDED" "worker" "w1"]
                    [ready; ready; ready] 2)))).
  - vm_compute. reflexivity.
  - vm_compute. reflexivity.
Defined.

Lemma worker_added_then_deleted_witness :
  ∃ w2 t2,
    remove_worker (demo_conf 1) demo_host "w1"
      (after (demo_conf 1) demo_host [pod_event "ADDED" "worker" "w1"]
         [ready] 1)
    = (Returned tt, w2, t2)
    ∧ citus_worker_nodes (self w2) = citus_worker_nodes (self (boot [ready]))
    ∧ init_provision (self w2) = true.
Proof.
  destruct (worker_added_then_deleted (demo_conf 1) demo_host "w1"
              (boot [ready])
              (after (demo_conf 1) demo_host
                 [pod_event "ADDED" "worker" "w1"] [ready] 1)
              [ReadPodStatus "w1" "default"; ProvisionAllNodes])
    as (w2 & t2 & Hrun & Hw & _ & _ & _ & Hf).
  - apply not_elem_of_empty.
  - vm_compute. reflexivity.
  - exists w2, t2. split; [exact Hrun|]. split; [exact Hw|].
    rewrite Hf. vm_compute. reflexivity.
Defined.

(** A worker that is never ready keeps the master's event from being
    processed. *)
Lemma not_ready_pod_blocks_the_loop_witness :
  run (demo_conf 2) demo_host
    [pod_event "ADDED" "worker" "w1"; pod_event "ADDED" "master" "m1"]
    {| self := init; api := [not_ready; not_ready; not_ready] |}
  = (Waiting, {| self := init; api := [] |},
     polls (demo_conf 2) "w1" 3).
Proof.
  apply (not_ready_pod_blocks_the_loop (demo_conf 2) demo_host
           (pod_event "ADDED" "worker" "w1")
           [pod_event "ADDED" "master" "m1"] AddWorker init
           [not_ready; not_ready; not_ready]); reflexivity.
Defined.

(** ** Members come from events already processed *)

(** X19.  After the first [i] events of a run, every name in the master
    set is the name of one of those [i] events that was dispatched to the
    ADDED handler of masters, and likewise for the coordinator set and the
    worker set: the sets hold no name the stream has not announced for that
    role. *)
Theorem members_were_announced conf get_host_name evs answers i :
  (∀ n, n ∈ citus_master_nodes (self (after conf get_host_name evs answers i))
        → dispatched conf (take i evs) AddMaster n)
  ∧ (∀ n, n ∈ citus_coordinator_nodes
                (self (after conf get_host_name evs answers i))
          → dispatched conf (take i evs) AddCoordinator n)
  ∧ (∀ n, n ∈ citus_worker_nodes
                (self (after conf get_host_name evs answers i))
          → dispatched conf (take i evs) AddWorker n).
Proof.
  pose proof (after_provenance conf get_host_name (take i evs) answers i)
    as H.
  unfold after in *. rewrite take_take, Nat.min_id in H. exact H.
Qed.

(** ** The coordinator host of a new master or coordinator *)

(** X20.  Once the gate has let a master or a coordinator through, the
    first call of its ADDED handler is the query that sets the coordinator
    host: sent to the pod itself in the service of its role, with the pod's
    own host name resolved in that service.  This holds also when the loop
    over the workers is stopped afterwards. *)
Theorem coordinator_host_set_first
    conf get_host_name h pod w w1 t1 o w' t :
  h = AddMaster ∨ h = AddCoordinator →
  check_pod_readiness conf pod w = (Returned tt, w1, t1) →
  call conf get_host_name h pod w = (o, w', t) →
  ∃ rest,
    filter is_call t
    = ExecuteQuery pod
        (match h with
         | AddMaster => master_service conf
         | _ => coordinator_service conf
         end)
        set_coordinator_sql
        (get_host_name pod
           (match h with
            | AddMaster => master_service conf
            | _ => coordinator_service conf
            end))
        (pg_port conf)
      :: rest.
Proof.
  intros Hh Hgate H. rewrite (call_add_eq _ _ _ _ _ Hh), Hgate in H.
  destruct (check_frame _ _ _ _ _ _ Hgate) as (_ & Hg & _ & _).
  destruct (gate_effects_only _ Hg) as (_ & _ & _ & Hc).
  cbv zeta in H. destruct (for_each _ _ _) as [[o2 w2] t2].
  pose proof (f_equal snd H) as Ht. cbn [snd] in Ht. subst t.
  rewrite !filter_app, Hc, own_effects_calls. cbn [app].
  destruct Hh as [-> | ->]; cbn [own_effects];
    unfold master_effects, coordinator_effects; cbn [app]; eauto.
Qed.

Lemma coordinator_host_set_first_witness :
  ∃ rest,
    filter is_call
      (effects_of (call (demo_conf 2) demo_host AddCoordinator "c1"
                     (boot [ready])))
    = ExecuteQuery "c1" "pg-citus-coordinator" set_coordinator_sql
        "c1.pg-citus-coordinator" 5432
      :: rest.
Proof.
  apply (coordinator_host_set_first (demo_conf 2) demo_host AddCoordinator
           "c1" (boot [ready]) (boot []) [ReadPodStatus "c1" "default"]
           (outcome_of (call (demo_conf 2) demo_host AddCoordinator "c1"
                          (boot [ready])))
           (world_of (call (demo_conf 2) demo_host AddCoordinator "c1"
                        (boot [ready])))).
  - by right.
  - reflexivity.
  - reflexivity.
Defined.
